(** * IQR outlier detection of the data-exploration notebook

    Source: [src/ai/notebooks/explore_data.ipynb], Section 5 (selection of
    the numerical columns) and Section 9 (the IQR loop).  The other source
    file, [src/workflows/deploy.yml], is declarative CI orchestration and
    carries no computation.

    The notebook is a sequence of pandas calls over the global data frame
    [df].  The loop body is embedded twice:

    - over exact rationals plus [NaN] ([Float], [Pandas], [Notebook]):
      the data frame, the series, the library operations the cells call
      ([select_dtypes], [df[col]], [quantile], the scalar comparisons,
      [|], boolean indexing, [len], [head]), the kernel's global
      variables as a record, a small state and exception monad, and the
      statements of the cells that compute (the drawing statements of
      Sections 5 and 9 are left out).
      Rounding and the infinities are left out; this layer carries the
      properties of the loop, of the selections and of the masks, which
      do not depend on them;
    - over IEEE 754 binary64 ([F64], on the Standard Library's
      [SpecFloat]): the same loop body with float64 as it is, and numpy's
      interpolation as numpy computes it.  This layer carries the
      properties that depend on the arithmetic: the quartiles, the fence
      and its order, identical values, missing values, the errors and the
      effects. *)

From Stdlib Require Import String ZArith QArith Qround List Bool Lia Lqa.
From Stdlib Require Import Permutation Sorted SpecFloat.
Import ListNotations.
Local Open Scope Q_scope.

(* ================================================================== *)
(** ** float64 scalars *)
(* ================================================================== *)

Module Float.

(** A float64 is either a number or NaN (pandas' missing value). *)
Inductive float : Type :=
| NaN
| Fin (q : Q).

Definition of_int (z : Z) : float := Fin (inject_Z z).

(** Arithmetic propagates NaN. *)
Definition fadd (a b : float) : float :=
  match a, b with
  | Fin x, Fin y => Fin (x + y)
  | _, _ => NaN
  end.

Definition fsub (a b : float) : float :=
  match a, b with
  | Fin x, Fin y => Fin (x - y)
  | _, _ => NaN
  end.

Definition fmul (a b : float) : float :=
  match a, b with
  | Fin x, Fin y => Fin (x * y)
  | _, _ => NaN
  end.

(** Every ordered comparison with NaN is false. *)
Definition flt (a b : float) : bool :=
  match a, b with
  | Fin x, Fin y => negb (Qle_bool y x)
  | _, _ => false
  end.

Definition fgt (a b : float) : bool := flt b a.

Definition fle (a b : float) : bool :=
  match a, b with
  | Fin x, Fin y => Qle_bool x y
  | _, _ => false
  end.

(** Numeric equality ([==] of Python on two numbers; NaN equals nothing). *)
Definition feq (a b : float) : Prop :=
  match a, b with
  | Fin x, Fin y => x == y
  | _, _ => False
  end.

Definition isnan (a : float) : bool :=
  match a with NaN => true | Fin _ => false end.

End Float.
Import Float.

(* ================================================================== *)
(** ** The pandas operations the notebook calls *)
(* ================================================================== *)

Module Pandas.

(** Python exceptions the modelled calls can raise. *)
Inductive exn : Type :=
| KeyError (key : string)
| TypeError.

Inductive result (A : Type) : Type :=
| Ok (a : A)
| Raise (e : exn).
Arguments Ok {A} a.
Arguments Raise {A} e.

(** A column holds values of one dtype.  Only float64 can hold NaN. *)
Inductive column : Type :=
| Int64 (v : list Z)
| Float64 (v : list float)
| Object (v : list string).

Definition col_len (c : column) : nat :=
  match c with
  | Int64 v => length v
  | Float64 v => length v
  | Object v => length v
  end.

(** A series: row labels and the values at them. *)
Record Series : Type := mkSeries {
  s_index : list nat;
  s_values : column
}.

Record BoolSeries : Type := mkBoolSeries {
  b_index : list nat;
  b_values : list bool
}.

(** A data frame: row labels and named columns, in column order. *)
Record DataFrame : Type := mkDataFrame {
  index : list nat;
  columns : list (string * column)
}.

(** Rows are aligned across columns and column names are unique (what
    [pd.read_csv] and the [pd.DataFrame] constructor of Section 2 give). *)
Definition aligned (d : DataFrame) : Prop :=
  Forall (fun nc => col_len (snd nc) = length (index d)) (columns d).

Definition wf (d : DataFrame) : Prop :=
  NoDup (map fst (columns d)) /\ aligned d.

Fixpoint lookup (col : string) (cs : list (string * column)) : option column :=
  match cs with
  | [] => None
  | (n, c) :: cs' => if String.eqb n col then Some c else lookup col cs'
  end.

(** [df[col]] *)
Definition getitem (d : DataFrame) (col : string) : result Series :=
  match lookup col (columns d) with
  | Some c => Ok (mkSeries (index d) c)
  | None => Raise (KeyError col)
  end.

Definition is_numeric (c : column) : bool :=
  match c with
  | Int64 _ | Float64 _ => true
  | Object _ => false
  end.

(** [df.select_dtypes(include=['int64', 'float64'])] *)
Definition select_dtypes (d : DataFrame) : DataFrame :=
  mkDataFrame (index d) (filter (fun nc => is_numeric (snd nc)) (columns d)).

(** [.columns] *)
Definition column_names (d : DataFrame) : list string :=
  map fst (columns d).

(** The values of a column as floats, for the quantile and the
    comparisons.  pandas computes on an object column without any value
    as on an empty numeric one; with strings in it there is no such view. *)
Definition numeric (c : column) : option (list float) :=
  match c with
  | Int64 v => Some (map of_int v)
  | Float64 v => Some v
  | Object [] => Some []
  | Object (_ :: _) => None
  end.

(** *** quantile *)

Fixpoint dropna (v : list float) : list Q :=
  match v with
  | [] => []
  | NaN :: v' => dropna v'
  | Fin x :: v' => x :: dropna v'
  end.

Fixpoint insert (x : Q) (l : list Q) : list Q :=
  match l with
  | [] => [x]
  | y :: l' => if Qle_bool x y then x :: l else y :: insert x l'
  end.

Fixpoint sort (l : list Q) : list Q :=
  match l with
  | [] => []
  | x :: l' => insert x (sort l')
  end.

(** numpy's [_lerp] (for [t >= 0.5] numpy evaluates the mirrored form
    [b - (b - a) * (1 - t)], the same number over the rationals). *)
Definition lerp (a b t : Q) : Q := a + (b - a) * t.

(** The value at the virtual index [h] of the sorted values [s]: linear
    interpolation between the two order statistics around [h] (the upper
    index is clipped to the last one). *)
Definition at_position (s : list Q) (h : Q) : Q :=
  let i := Z.to_nat (Qfloor h) in
  let g := h - inject_Z (Qfloor h) in
  lerp (nth i s 0) (nth (Nat.min (i + 1) (length s - 1)) s 0) g.

(** The [q]-quantile of the values [xs] (interpolation='linear'): the
    value at the virtual index [q * (n - 1)]; NaN when there is no value. *)
Definition percentile (xs : list Q) (q : Q) : float :=
  match xs with
  | [] => NaN
  | _ :: _ =>
      Fin (at_position (sort xs) (q * inject_Z (Z.of_nat (length xs) - 1)))
  end.

(** [s.quantile(q)]: missing values are skipped; interpolating between
    strings is a TypeError. *)
Definition quantile (s : Series) (q : Q) : result float :=
  match numeric (s_values s) with
  | Some v => Ok (percentile (dropna v) q)
  | None => Raise TypeError
  end.

(** *** comparisons, [|], boolean indexing *)

(** [s < x] *)
Definition lt_scalar (s : Series) (x : float) : result BoolSeries :=
  match numeric (s_values s) with
  | Some v => Ok (mkBoolSeries (s_index s) (map (fun y => flt y x) v))
  | None => Raise TypeError
  end.

(** [s > x] *)
Definition gt_scalar (s : Series) (x : float) : result BoolSeries :=
  match numeric (s_values s) with
  | Some v => Ok (mkBoolSeries (s_index s) (map (fun y => fgt y x) v))
  | None => Raise TypeError
  end.

Fixpoint zip_or (a b : list bool) : list bool :=
  match a, b with
  | x :: a', y :: b' => (x || y)%bool :: zip_or a' b'
  | _, _ => []
  end.

(** [a | b] on two masks over the same rows *)
Definition bor (a b : BoolSeries) : BoolSeries :=
  mkBoolSeries (b_index a) (zip_or (b_values a) (b_values b)).

(** The entries of [l] at the positions where the mask is true. *)
Fixpoint select {A : Type} (m : list bool) (l : list A) : list A :=
  match m, l with
  | b :: m', x :: l' => if b then x :: select m' l' else select m' l'
  | _, _ => []
  end.

Definition select_col (m : list bool) (c : column) : column :=
  match c with
  | Int64 v => Int64 (select m v)
  | Float64 v => Float64 (select m v)
  | Object v => Object (select m v)
  end.

(** [df[mask]]: the rows where the mask is true, all columns kept. *)
Definition getitem_mask (d : DataFrame) (m : BoolSeries) : DataFrame :=
  mkDataFrame (select (b_values m) (index d))
              (map (fun nc => (fst nc, select_col (b_values m) (snd nc)))
                   (columns d)).

(** [len(s)] *)
Definition len (s : Series) : nat := length (s_index s).

Definition firstn_col (n : nat) (c : column) : column :=
  match c with
  | Int64 v => Int64 (firstn n v)
  | Float64 v => Float64 (firstn n v)
  | Object v => Object (firstn n v)
  end.

(** [s.head()]: the first five rows. *)
Definition head (s : Series) : Series :=
  mkSeries (firstn 5 (s_index s)) (firstn_col 5 (s_values s)).

End Pandas.
Import Pandas.

(* ================================================================== *)
(** ** The notebook cells *)
(* ================================================================== *)

Module Notebook.

(** What [print] wrote, one entry per call. *)
Inductive line : Type :=
| Header (col : string)   (* print(f"\nOutliers in {col}:") *)
| Count (n : nat)         (* print(f"Number of outliers: {len(outliers)}") *)
| Shown (s : Series).     (* print(outliers.head()) *)

(** The kernel's global variables the two cells touch, and standard
    output.  A variable that no cell has assigned yet holds an arbitrary
    value here; no statement reads one before assigning it. *)
Record Env : Type := mkEnv {
  df : DataFrame;
  numerical_cols : list string;
  col : string;
  Q1 : float;
  Q3 : float;
  IQR : float;
  lower_bound : float;
  upper_bound : float;
  outliers : Series;
  stdout : list line
}.

Definition set_numerical_cols (v : list string) (e : Env) : Env :=
  mkEnv (df e) v (col e) (Q1 e) (Q3 e) (IQR e) (lower_bound e)
        (upper_bound e) (outliers e) (stdout e).
Definition set_col (v : string) (e : Env) : Env :=
  mkEnv (df e) (numerical_cols e) v (Q1 e) (Q3 e) (IQR e) (lower_bound e)
        (upper_bound e) (outliers e) (stdout e).
Definition set_Q1 (v : float) (e : Env) : Env :=
  mkEnv (df e) (numerical_cols e) (col e) v (Q3 e) (IQR e) (lower_bound e)
        (upper_bound e) (outliers e) (stdout e).
Definition set_Q3 (v : float) (e : Env) : Env :=
  mkEnv (df e) (numerical_cols e) (col e) (Q1 e) v (IQR e) (lower_bound e)
        (upper_bound e) (outliers e) (stdout e).
Definition set_IQR (v : float) (e : Env) : Env :=
  mkEnv (df e) (numerical_cols e) (col e) (Q1 e) (Q3 e) v (lower_bound e)
        (upper_bound e) (outliers e) (stdout e).
Definition set_lower_bound (v : float) (e : Env) : Env :=
  mkEnv (df e) (numerical_cols e) (col e) (Q1 e) (Q3 e) (IQR e) v
        (upper_bound e) (outliers e) (stdout e).
Definition set_upper_bound (v : float) (e : Env) : Env :=
  mkEnv (df e) (numerical_cols e) (col e) (Q1 e) (Q3 e) (IQR e)
        (lower_bound e) v (outliers e) (stdout e).
Definition set_outliers (v : Series) (e : Env) : Env :=
  mkEnv (df e) (numerical_cols e) (col e) (Q1 e) (Q3 e) (IQR e)
        (lower_bound e) (upper_bound e) v (stdout e).
Definition set_stdout (v : list line) (e : Env) : Env :=
  mkEnv (df e) (numerical_cols e) (col e) (Q1 e) (Q3 e) (IQR e)
        (lower_bound e) (upper_bound e) (outliers e) v.

(** Statements run on the kernel state; an exception stops the cell and
    leaves the variables as they were when it was raised. *)
Definition M (A : Type) : Type := Env -> result A * Env.

Definition ret {A : Type} (a : A) : M A := fun e => (Ok a, e).

Definition bind {A B : Type} (m : M A) (f : A -> M B) : M B :=
  fun e =>
    match m e with
    | (Ok a, e') => f a e'
    | (Raise x, e') => (Raise x, e')
    end.

Notation "x <- m ;; k" := (bind m (fun x => k))
  (at level 61, m at next level, right associativity).
Notation "m ;; k" := (bind m (fun _ => k))
  (at level 61, right associativity).

Definition read {A : Type} (var : Env -> A) : M A := fun e => (Ok (var e), e).
Definition lift {A : Type} (r : result A) : M A := fun e => (r, e).
Definition assign {A : Type} (set : A -> Env -> Env) (v : A) : M unit :=
  fun e => (Ok tt, set v e).
Definition print (l : line) : M unit :=
  fun e => (Ok tt, set_stdout (stdout e ++ [l]) e).

Fixpoint for_each {A : Type} (l : list A) (body : A -> M unit) : M unit :=
  match l with
  | [] => ret tt
  | x :: l' => body x ;; for_each l' body
  end.

(** [df[col]] on the current globals *)
Definition df_col : M Series :=
  d <- read df ;;
  c <- read col ;;
  lift (getitem d c).

(** Section 5, first statement:
    [numerical_cols = df.select_dtypes(include=['int64', 'float64']).columns] *)
Definition select_numerical : M unit :=
  d <- read df ;;
  assign set_numerical_cols (column_names (select_dtypes d)).

(** Section 9, the body of [for col in numerical_cols:] *)
Definition iteration (c : string) : M unit :=
  assign set_col c ;;
  (* Q1 = df[col].quantile(0.25) *)
  s <- df_col ;;
  q <- lift (quantile s (1 # 4)) ;;
  assign set_Q1 q ;;
  (* Q3 = df[col].quantile(0.75) *)
  s <- df_col ;;
  q <- lift (quantile s (3 # 4)) ;;
  assign set_Q3 q ;;
  (* IQR = Q3 - Q1 *)
  a <- read Q3 ;;
  b <- read Q1 ;;
  assign set_IQR (fsub a b) ;;
  (* lower_bound = Q1 - 1.5 * IQR *)
  a <- read Q1 ;;
  b <- read IQR ;;
  assign set_lower_bound (fsub a (fmul (Fin (3 # 2)) b)) ;;
  (* upper_bound = Q3 + 1.5 * IQR *)
  a <- read Q3 ;;
  b <- read IQR ;;
  assign set_upper_bound (fadd a (fmul (Fin (3 # 2)) b)) ;;
  (* outliers = df[(df[col] < lower_bound) | (df[col] > upper_bound)][col] *)
  d <- read df ;;
  s <- df_col ;;
  lo <- read lower_bound ;;
  below <- lift (lt_scalar s lo) ;;
  s <- df_col ;;
  hi <- read upper_bound ;;
  above <- lift (gt_scalar s hi) ;;
  k <- read col ;;
  o <- lift (getitem (getitem_mask d (bor below above)) k) ;;
  assign set_outliers o ;;
  (* the three prints *)
  k <- read col ;;
  print (Header k) ;;
  o <- read outliers ;;
  print (Count (len o)) ;;
  o <- read outliers ;;
  if (0 <? len o)%nat
  then o <- read outliers ;; print (Shown (head o))
  else ret tt.

(** Section 9, second loop. *)
Definition detect_outliers : M unit :=
  names <- read numerical_cols ;;
  for_each names iteration.

(** The statement of Section 5 that binds [numerical_cols], then the loop
    of Section 9.  The plotting statements of both sections (histograms,
    skewness, box plots) are not part of it. *)
Definition notebook : M unit :=
  select_numerical ;;
  detect_outliers.

(** The kernel right after Section 2 loaded [table] into [df]. *)
Definition loaded (table : DataFrame) : Env :=
  mkEnv table [] EmptyString NaN NaN NaN NaN NaN (mkSeries [] (Float64 [])) [].

(** The scanner's contract [scan(table, column) -> (count, outliers)]:
    one pass of the loop body, and what it leaves in [outliers]. *)
Definition scan (table : DataFrame) (column : string) : result (nat * Series) :=
  match iteration column (loaded table) with
  | (Ok _, e) => Ok (len (outliers e), outliers e)
  | (Raise x, _) => Raise x
  end.

End Notebook.
Import Notebook.

(* ================================================================== *)
(** ** Vocabulary of the statements *)
(* ================================================================== *)

(** The mask of the rows strictly outside the fence [lo, hi]. *)
Definition outside (lo hi : float) (y : float) : bool :=
  (flt y lo || fgt y hi)%bool.

(** The state one iteration leaves for a numeric column with values [v]. *)
Definition after (e : Env) (c : string) (k : column) (v : list float) : Env :=
  let q1 := percentile (dropna v) (1 # 4) in
  let q3 := percentile (dropna v) (3 # 4) in
  let iqr := fsub q3 q1 in
  let lo := fsub q1 (fmul (Fin (3 # 2)) iqr) in
  let hi := fadd q3 (fmul (Fin (3 # 2)) iqr) in
  let m := map (outside lo hi) v in
  let o := mkSeries (select m (index (df e))) (select_col m k) in
  mkEnv (df e) (numerical_cols e) c q1 q3 iqr lo hi o
        (stdout e ++ Header c :: Count (len o)
           :: (if (0 <? len o)%nat then [Shown (head o)] else [])).

(** The column names the report lines announce. *)
Definition headers (out : list line) : list string :=
  flat_map (fun l => match l with Header c => [c] | _ => [] end) out.

(** The variables one iteration assigns. *)
Definition report (e : Env) : float * float * float * float * float * Series :=
  (Q1 e, Q3 e, IQR e, lower_bound e, upper_bound e, outliers e).

(** The lines one iteration prints for a numeric column. *)
Definition printed (e : Env) (c : string) (k : column) (v : list float)
  : list line :=
  let o := outliers (after e c k v) in
  Header c :: Count (len o)
    :: (if (0 <? len o)%nat then [Shown (head o)] else []).

(** The rows of a numeric series: each label with its value. *)
Definition rows (s : Series) : list (nat * float) :=
  match numeric (s_values s) with
  | Some v => combine (s_index s) v
  | None => []
  end.

(** [y] strictly below, respectively above, a bound. *)
Definition below (y b : float) : Prop :=
  match y, b with
  | Fin a, Fin l => a < l
  | _, _ => False
  end.

Definition above (y b : float) : Prop := below b y.

(** Closed facts about a run: split the conjunction and evaluate. *)
Ltac by_running :=
  repeat match goal with |- _ /\ _ => split end;
  vm_compute; solve [reflexivity | discriminate].

(** Sample tables. *)
Definition sample9 : DataFrame :=
  mkDataFrame (seq 0 9)
    [("x"%string, Int64 [1; 2; 2; 3; 3; 3; 4; 4; 100]%Z);
     ("y"%string, Float64 (map of_int [1; 2; 2; 3; 3; 3; 4; 4; 100]%Z))].

Definition no_rows : DataFrame :=
  mkDataFrame [] [("x"%string, Float64 [])].

Definition with_gap : DataFrame :=
  mkDataFrame (seq 0 5)
    [("x"%string, Float64 [Fin 1; NaN; Fin 2; Fin 3; Fin 50])].

Definition mixed : DataFrame :=
  mkDataFrame (seq 0 2)
    [("species"%string, Object ["setosa"; "virginica"]%string);
     ("sepal_length"%string, Float64 [Fin (51 # 10); Fin (63 # 10)])].

(* ================================================================== *)
(** ** The other cells *)
(* ================================================================== *)

(** Section 4, [df.isnull()] on one column: only float64 holds NaN; an
    int64 value is never missing, and an object column of this model
    holds strings only. *)
Definition isnull (c : column) : list bool :=
  match c with
  | Int64 v => map (fun _ => false) v
  | Float64 v => map isnan v
  | Object v => map (fun _ => false) v
  end.

(** [.sum()] of a boolean column: the number of [True]. *)
Definition count_true (m : list bool) : nat :=
  length (filter (fun b => b) m).

(** [df.isnull().sum()]: the number of missing values of each column. *)
Definition missing_values (d : DataFrame) : list (string * nat) :=
  map (fun nc => (fst nc, count_true (isnull (snd nc)))) (columns d).

(** Section 6, first statement:
    [categorical_cols = df.select_dtypes(include=['object', 'category']).columns]
    (the model has no category dtype). *)
Definition is_categorical (c : column) : bool :=
  match c with
  | Object _ => true
  | Int64 _ | Float64 _ => false
  end.

Definition select_dtypes_categorical (d : DataFrame) : DataFrame :=
  mkDataFrame (index d)
              (filter (fun nc => is_categorical (snd nc)) (columns d)).

Definition categorical_cols (d : DataFrame) : list string :=
  column_names (select_dtypes_categorical d).

(** Section 10.  What [fig.show()] displays. *)
Inductive figure : Type :=
| Scatter (x y : string) (color : option string)
| Box (y : string).

(** [l[i]] for [i >= 0]; [None] stands for IndexError. *)
Definition item {A : Type} (l : list A) (i : nat) : option A := nth_error l i.

(** [l[-1]]; [None] stands for IndexError. *)
Definition last_item (l : list string) : option string :=
  match l with
  | [] => None
  | _ :: _ => Some (last l EmptyString)
  end.

(** The two [if] statements of Section 10, reading the globals [df],
    [numerical_cols] and [categorical_cols]; the figures shown, in order,
    or [None] when an index is out of range. *)
Definition interactive_plots (d : DataFrame) (nums cats : list string)
  : option (list figure) :=
  let scatter :=
    if (2 <=? length nums)%nat then
      match item nums 0 with
      | None => None
      | Some x =>
          match item nums 1 with
          | None => None
          | Some y =>
              (* df.columns[-1] if 'target' in df.columns
                                  or len(categorical_cols) > 0 else None *)
              if (existsb (String.eqb "target") (column_names d)
                  || (0 <? length cats)%nat)%bool
              then match last_item (column_names d) with
                   | None => None
                   | Some c => Some [Scatter x y (Some c)]
                   end
              else Some [Scatter x y None]
          end
      end
    else Some [] in
  match scatter with
  | None => None
  | Some shown =>
      if (0 <? length nums)%nat then
        match item nums 0 with
        | None => None
        | Some y => Some (shown ++ [Box y])
        end
      else Some shown
  end.

(** *** Vocabulary of the further statements *)

(** The lines the loop body prints for what [scan] returns. *)
Definition report_lines (c : string) (r : nat * Series) : list line :=
  Header c :: Count (fst r)
    :: (if (0 <? fst r)%nat then [Shown (head (snd r))] else []).

Definition scan_lines (d : DataFrame) (c : string) : list line :=
  match scan d c with
  | Ok r => report_lines c r
  | Raise _ => []
  end.

(** The same float: both NaN, or two equal numbers. *)
Definition same (a b : float) : Prop :=
  match a, b with
  | NaN, NaN => True
  | Fin x, Fin y => x == y
  | _, _ => False
  end.

(* ================================================================== *)
(** ** The loop body over IEEE 754 binary64 *)
(* ================================================================== *)

(** The layers above compute with exact rationals; what they prove does
    not depend on rounding.  This module embeds the same statements with
    float64 as it is: [spec_float] at precision 53, with its rounding to
    nearest even, its signed zeros, its infinities and its NaN.  The
    properties that depend on the arithmetic are stated on it. *)
Module F64.

Definition prec : Z := 53.
Definition emax : Z := 1024.

Definition float : Type := spec_float.

Definition NaN : float := S754_nan.
Definition fadd : float -> float -> float := SFadd prec emax.
Definition fsub : float -> float -> float := SFsub prec emax.
Definition fmul : float -> float -> float := SFmul prec emax.

(** [a < b], [a > b] and [a <= b] of two float64: false as soon as one of
    them is NaN. *)
Definition flt (a b : float) : bool := SFltb a b.
Definition fgt (a b : float) : bool := SFltb b a.
Definition fle (a b : float) : bool := SFleb a b.

Definition isnan (a : float) : bool :=
  match a with S754_nan => true | _ => false end.

(** An int64 converted to float64 (rounded to nearest even beyond 2^53). *)
Definition of_int (z : Z) : float := binary_normalize prec emax z 0 false.

(** The literals 0.0, 0.25, 0.5, 0.75, 1.0 and 1.5. *)
Definition f0_0 : float := S754_zero false.
Definition f0_25 : float := S754_finite false 4503599627370496 (-54).
Definition f0_5 : float := S754_finite false 4503599627370496 (-53).
Definition f0_75 : float := S754_finite false 6755399441055744 (-53).
Definition f1_0 : float := S754_finite false 4503599627370496 (-52).
Definition f1_5 : float := S754_finite false 6755399441055744 (-52).

(** *** Columns, series, frames *)

(** An [Int64] cell is an integer of the int64 range; an [Object] column
    of this model holds strings. *)
Inductive column : Type :=
| Int64 (v : list Z)
| Float64 (v : list float)
| Object (v : list string).

Definition col_len (c : column) : nat :=
  match c with
  | Int64 v => length v
  | Float64 v => length v
  | Object v => length v
  end.

Record Series : Type := mkSeries {
  s_index : list nat;
  s_values : column
}.

Record DataFrame : Type := mkDataFrame {
  index : list nat;
  columns : list (string * column)
}.

Fixpoint lookup (col : string) (cs : list (string * column)) : option column :=
  match cs with
  | [] => None
  | (n, c) :: cs' => if String.eqb n col then Some c else lookup col cs'
  end.

(** [df[col]] *)
Definition getitem (d : DataFrame) (col : string) : result Series :=
  match lookup col (columns d) with
  | Some c => Ok (mkSeries (index d) c)
  | None => Raise (KeyError col)
  end.

(** *** quantile *)

(** numpy's [_lerp]: [a + (b - a) * t], replaced by
    [b - (b - a) * (1 - t)] where [t >= 0.5]. *)
Definition lerp (a b t : float) : float :=
  let d := fsub b a in
  if fle f0_5 t then fsub b (fmul d (fsub f1_0 t))
  else fadd a (fmul d t).

(** int64 arithmetic wraps around. *)
Definition wrap64 (z : Z) : Z := (z + 2 ^ 63) mod 2 ^ 64 - 2 ^ 63.

(** [_lerp] on two int64 order statistics: the difference is taken in
    int64, the rest in float64. *)
Definition lerp_int (a b : Z) (t : float) : float :=
  let d := of_int (wrap64 (b - a)) in
  if fle f0_5 t then fsub (of_int b) (fmul d (fsub f1_0 t))
  else fadd (of_int a) (fmul d t).

Fixpoint insert {A : Type} (leb : A -> A -> bool) (x : A) (l : list A)
  : list A :=
  match l with
  | [] => [x]
  | y :: l' => if leb x y then x :: l else y :: insert leb x l'
  end.

Fixpoint sort {A : Type} (leb : A -> A -> bool) (l : list A) : list A :=
  match l with
  | [] => []
  | x :: l' => insert leb x (sort leb l')
  end.

(** The fractional parts a position can have, in quarters. *)
Definition quarter (r : Z) : float :=
  if (r =? 0)%Z then f0_0
  else if (r =? 1)%Z then f0_25
  else if (r =? 2)%Z then f0_5
  else f0_75.

(** The value at the position [q * (n - 1)] of the [n] sorted values
    [s], for [q] given in quarters (1 for 0.25, 3 for 0.75): the two order
    statistics around the position, interpolated at its fractional part;
    NaN without any value.  The product, its floor and the fractional
    part are computed exactly, as float64 does for every length below
    2^51. *)
Definition at_quarters {A : Type} (interp : A -> A -> float -> float)
    (s : list A) (quarters : Z) : float :=
  match s with
  | [] => NaN
  | x :: _ =>
      let p := (quarters * (Z.of_nat (length s) - 1))%Z in
      let i := Z.to_nat (p / 4) in
      let j := Nat.min (i + 1) (length s - 1) in
      interp (nth i s x) (nth j s x) (quarter (p mod 4))
  end.

(** The non-missing values. *)
Definition dropna (v : list float) : list float :=
  filter (fun y => negb (isnan y)) v.

(** The values of a column as float64, for the comparisons: pandas
    compares an object column without any value like an empty numeric
    one; strings do not compare with a float. *)
Definition as_float (c : column) : option (list float) :=
  match c with
  | Int64 v => Some (map of_int v)
  | Float64 v => Some v
  | Object [] => Some []
  | Object (_ :: _) => None
  end.

(** The value interpolated at the position [quarters / 4 * (n - 1)] of a
    column's [n] non-missing values. *)
Definition order_statistic (c : column) (quarters : Z) : float :=
  match c with
  | Float64 v => at_quarters lerp (sort fle (dropna v)) quarters
  | Int64 v => at_quarters lerp_int (sort Z.leb v) quarters
  | Object _ => NaN
  end.

(** [s.quantile(q)] for [q] in quarters: missing values are skipped, an
    int64 column is interpolated as numpy does on integers, an object
    column without any value gives NaN, and interpolating between strings
    is a TypeError. *)
Definition quantile (s : Series) (quarters : Z) : result float :=
  match as_float (s_values s) with
  | Some _ => Ok (order_statistic (s_values s) quarters)
  | None => Raise TypeError
  end.

(** *** comparisons and boolean indexing *)

(** [s < x] *)
Definition lt_scalar (s : Series) (x : float) : result BoolSeries :=
  match as_float (s_values s) with
  | Some v => Ok (mkBoolSeries (s_index s) (map (fun y => flt y x) v))
  | None => Raise TypeError
  end.

(** [s > x] *)
Definition gt_scalar (s : Series) (x : float) : result BoolSeries :=
  match as_float (s_values s) with
  | Some v => Ok (mkBoolSeries (s_index s) (map (fun y => fgt y x) v))
  | None => Raise TypeError
  end.

Definition select_col (m : list bool) (c : column) : column :=
  match c with
  | Int64 v => Int64 (select m v)
  | Float64 v => Float64 (select m v)
  | Object v => Object (select m v)
  end.

(** [df[mask]] *)
Definition getitem_mask (d : DataFrame) (m : BoolSeries) : DataFrame :=
  mkDataFrame (select (b_values m) (index d))
              (map (fun nc => (fst nc, select_col (b_values m) (snd nc)))
                   (columns d)).

(** [len(s)] *)
Definition len (s : Series) : nat := length (s_index s).

Definition firstn_col (n : nat) (c : column) : column :=
  match c with
  | Int64 v => Int64 (firstn n v)
  | Float64 v => Float64 (firstn n v)
  | Object v => Object (firstn n v)
  end.

(** [s.head()] *)
Definition head (s : Series) : Series :=
  mkSeries (firstn 5 (s_index s)) (firstn_col 5 (s_values s)).

(** *** The kernel and the loop body *)

Inductive line : Type :=
| Header (col : string)
| Count (n : nat)
| Shown (s : Series).

Record Env : Type := mkEnv {
  df : DataFrame;
  numerical_cols : list string;
  col : string;
  Q1 : float;
  Q3 : float;
  IQR : float;
  lower_bound : float;
  upper_bound : float;
  outliers : Series;
  stdout : list line
}.

Definition set_col (v : string) (e : Env) : Env :=
  mkEnv (df e) (numerical_cols e) v (Q1 e) (Q3 e) (IQR e) (lower_bound e)
        (upper_bound e) (outliers e) (stdout e).
Definition set_Q1 (v : float) (e : Env) : Env :=
  mkEnv (df e) (numerical_cols e) (col e) v (Q3 e) (IQR e) (lower_bound e)
        (upper_bound e) (outliers e) (stdout e).
Definition set_Q3 (v : float) (e : Env) : Env :=
  mkEnv (df e) (numerical_cols e) (col e) (Q1 e) v (IQR e) (lower_bound e)
        (upper_bound e) (outliers e) (stdout e).
Definition set_IQR (v : float) (e : Env) : Env :=
  mkEnv (df e) (numerical_cols e) (col e) (Q1 e) (Q3 e) v (lower_bound e)
        (upper_bound e) (outliers e) (stdout e).
Definition set_lower_bound (v : float) (e : Env) : Env :=
  mkEnv (df e) (numerical_cols e) (col e) (Q1 e) (Q3 e) (IQR e) v
        (upper_bound e) (outliers e) (stdout e).
Definition set_upper_bound (v : float) (e : Env) : Env :=
  mkEnv (df e) (numerical_cols e) (col e) (Q1 e) (Q3 e) (IQR e)
        (lower_bound e) v (outliers e) (stdout e).
Definition set_outliers (v : Series) (e : Env) : Env :=
  mkEnv (df e) (numerical_cols e) (col e) (Q1 e) (Q3 e) (IQR e)
        (lower_bound e) (upper_bound e) v (stdout e).
Definition set_stdout (v : list line) (e : Env) : Env :=
  mkEnv (df e) (numerical_cols e) (col e) (Q1 e) (Q3 e) (IQR e)
        (lower_bound e) (upper_bound e) (outliers e) v.

Definition M (A : Type) : Type := Env -> result A * Env.

Definition ret {A : Type} (a : A) : M A := fun e => (Ok a, e).

Definition bind {A B : Type} (m : M A) (f : A -> M B) : M B :=
  fun e =>
    match m e with
    | (Ok a, e') => f a e'
    | (Raise x, e') => (Raise x, e')
    end.

Declare Scope f64_scope.
Notation "x <- m ;; k" := (bind m (fun x => k))
  (at level 61, m at next level, right associativity) : f64_scope.
Notation "m ;; k" := (bind m (fun _ => k))
  (at level 61, right associativity) : f64_scope.
Local Open Scope f64_scope.

Definition read {A : Type} (var : Env -> A) : M A := fun e => (Ok (var e), e).
Definition lift {A : Type} (r : result A) : M A := fun e => (r, e).
Definition assign {A : Type} (set : A -> Env -> Env) (v : A) : M unit :=
  fun e => (Ok tt, set v e).
Definition print (l : line) : M unit :=
  fun e => (Ok tt, set_stdout (stdout e ++ [l]) e).

(** [df[col]] on the current globals *)
Definition df_col : M Series :=
  d <- read df ;;
  c <- read col ;;
  lift (getitem d c).

(** Section 9, the body of [for col in numerical_cols:] *)
Definition iteration (c : string) : M unit :=
  assign set_col c ;;
  (* Q1 = df[col].quantile(0.25) *)
  s <- df_col ;;
  q <- lift (quantile s 1) ;;
  assign set_Q1 q ;;
  (* Q3 = df[col].quantile(0.75) *)
  s <- df_col ;;
  q <- lift (quantile s 3) ;;
  assign set_Q3 q ;;
  (* IQR = Q3 - Q1 *)
  a <- read Q3 ;;
  b <- read Q1 ;;
  assign set_IQR (fsub a b) ;;
  (* lower_bound = Q1 - 1.5 * IQR *)
  a <- read Q1 ;;
  b <- read IQR ;;
  assign set_lower_bound (fsub a (fmul f1_5 b)) ;;
  (* upper_bound = Q3 + 1.5 * IQR *)
  a <- read Q3 ;;
  b <- read IQR ;;
  assign set_upper_bound (fadd a (fmul f1_5 b)) ;;
  (* outliers = df[(df[col] < lower_bound) | (df[col] > upper_bound)][col] *)
  d <- read df ;;
  s <- df_col ;;
  lo <- read lower_bound ;;
  below <- lift (lt_scalar s lo) ;;
  s <- df_col ;;
  hi <- read upper_bound ;;
  above <- lift (gt_scalar s hi) ;;
  k <- read col ;;
  o <- lift (getitem (getitem_mask d (bor below above)) k) ;;
  assign set_outliers o ;;
  (* the three prints *)
  k <- read col ;;
  print (Header k) ;;
  o <- read outliers ;;
  print (Count (len o)) ;;
  o <- read outliers ;;
  if (0 <? len o)%nat
  then o <- read outliers ;; print (Shown (head o))
  else ret tt.

(** The kernel right after Section 2 loaded [table] into [df]. *)
Definition loaded (table : DataFrame) : Env :=
  mkEnv table [] EmptyString NaN NaN NaN NaN NaN (mkSeries [] (Float64 [])) [].

(** [scan(table, column) -> (count, outliers)]: one pass of the body. *)
Definition scan (table : DataFrame) (column : string) : result (nat * Series) :=
  match iteration column (loaded table) with
  | (Ok _, e) => Ok (len (outliers e), outliers e)
  | (Raise x, _) => Raise x
  end.

(** *** Vocabulary of the statements *)

(** A value strictly outside the fence [lo, hi]. *)
Definition outside (lo hi : float) (y : float) : bool :=
  (flt y lo || fgt y hi)%bool.

(** A value that is not missing. *)
Definition present (y : float) : bool :=
  match y with S754_nan => false | _ => true end.

(** A finite value: neither missing nor an infinity. *)
Definition finite (y : float) : bool :=
  match y with
  | S754_zero _ | S754_finite _ _ _ => true
  | _ => false
  end.

(** [x] is the finite value [a], up to the sign of a zero. *)
Definition same_value (a x : float) : Prop :=
  match a with
  | S754_zero _ => exists s, x = S754_zero s
  | S754_finite _ _ _ => x = a
  | _ => False
  end.

(** After [k] shifts of [m0] to the right: the quotient by [2 ^ k], and
    digits were lost only if the remainder is not 0. *)
Definition shifted (m0 k : Z) (mrs : shr_record) : Prop :=
  shr_m mrs = (m0 / 2 ^ k)%Z /\
  (orb (shr_r mrs) (shr_s mrs) = true -> (m0 mod 2 ^ k)%Z <> 0%Z).

(** [r] is [s] times a magnitude at most, at least, that of the mantissa
    [ma] at the exponent [ea]. *)
Definition at_most (s : bool) (ma : positive) (ea : Z) (r : float) : Prop :=
  r = S754_zero s \/
  exists m e, r = S754_finite s m e /\
              (e < ea \/ (e = ea /\ Z.pos m <= Z.pos ma))%Z.

Definition at_least (s : bool) (ma : positive) (ea : Z) (r : float) : Prop :=
  r = S754_infinity s \/
  exists m e, r = S754_finite s m e /\
              (ea < e \/ (e = ea /\ Z.pos ma <= Z.pos m))%Z.

(** A result of rounding with the sign [s]: a zero, a finite number or
    an infinity of that sign. *)
Definition signed (s : bool) (r : float) : Prop :=
  match r with
  | S754_zero s' | S754_infinity s' | S754_finite s' _ _ => s' = s
  | S754_nan => False
  end.

(** The variables one iteration assigns. *)
Definition report (e : Env) : float * float * float * float * float * Series :=
  (Q1 e, Q3 e, IQR e, lower_bound e, upper_bound e, outliers e).

(** The state one iteration leaves for a column [k] with float view [v]. *)
Definition after (e : Env) (c : string) (k : column) (v : list float) : Env :=
  let q1 := order_statistic k 1 in
  let q3 := order_statistic k 3 in
  let iqr := fsub q3 q1 in
  let lo := fsub q1 (fmul f1_5 iqr) in
  let hi := fadd q3 (fmul f1_5 iqr) in
  let m := map (outside lo hi) v in
  let o := mkSeries (select m (index (df e))) (select_col m k) in
  mkEnv (df e) (numerical_cols e) c q1 q3 iqr lo hi o
        (stdout e ++ Header c :: Count (len o)
           :: (if (0 <? len o)%nat then [Shown (head o)] else [])).

(** Sample values: 5.1, 6.3, 1.5e308 and the infinities. *)
Definition f5_1 : float := S754_finite false 5742089524897382 (-50).
Definition f6_3 : float := S754_finite false 7093169413108531 (-50).
Definition pinf : float := S754_infinity false.
Definition ninf : float := S754_infinity true.

Definition one_column (k : column) : DataFrame :=
  mkDataFrame (seq 0 (col_len k)) [("x"%string, k)].

Definition with_infinities : DataFrame :=
  one_column (Float64 [ninf; of_int 1; of_int 2; of_int 3; pinf]).


Definition two_infinities : DataFrame := one_column (Float64 [pinf; pinf]).


Definition two_values : DataFrame := one_column (Float64 [f5_1; f6_3]).

Definition with_missing : DataFrame :=
  one_column (Float64 [of_int 1; NaN; of_int 2; of_int 3; NaN; of_int 100]).

Definition nine_values : DataFrame :=
  one_column (Int64 [1; 2; 2; 3; 3; 3; 4; 4; 100]%Z).

Definition four_fives : DataFrame := one_column (Int64 [5; 5; 5; 5]%Z).

Definition large_integers : DataFrame :=
  one_column (Int64 (repeat (2 ^ 53 + 1)%Z 4)).

Definition extreme_integers : DataFrame :=
  one_column (Int64 [- 2 ^ 63; 2 ^ 63 - 1]%Z).

Definition names_without_rows : DataFrame :=
  mkDataFrame [] [("name"%string, Object [])].

Definition names : DataFrame :=
  mkDataFrame [0; 1]%nat [("name"%string, Object ["a"%string; "b"%string])].

End F64.

(* ================================================================== *)
(** ** Masks and selections *)
(* ================================================================== *)

Lemma select_nil_r {A : Type} (m : list bool) : select m (@nil A) = [].
Proof. destruct m as [|[] m]; reflexivity. Qed.

Lemma lookup_getitem_mask (m : list bool) (c : string) cs :
  lookup c (map (fun nc => (fst nc, select_col m (snd nc))) cs)
  = option_map (select_col m) (lookup c cs).
Proof.
  induction cs as [|[n k] cs IH]; simpl; [reflexivity|].
  destruct (String.eqb n c); [reflexivity | exact IH].
Qed.

Lemma zip_or_map {A : Type} (f g : A -> bool) (v : list A) :
  zip_or (map f v) (map g v) = map (fun y => (f y || g y)%bool) v.
Proof. induction v as [|y v IH]; simpl; [reflexivity | now rewrite IH]. Qed.

Lemma flt_below (y b : float) : flt y b = true <-> below y b.
Proof.
  destruct y as [|a], b as [|l]; simpl; try (split; [discriminate | tauto]).
  rewrite negb_true_iff. split.
  - intros H. destruct (Qlt_le_dec a l) as [Hl|Hl]; [exact Hl|].
    apply Qle_bool_iff in Hl. congruence.
  - intros H. destruct (Qle_bool l a) eqn:E; [|reflexivity].
    apply Qle_bool_iff in E. lra.
Qed.

Lemma outside_iff (lo hi y : float) :
  outside lo hi y = true <-> below y lo \/ above y hi.
Proof.
  unfold outside, above, fgt. now rewrite orb_true_iff, !flt_below.
Qed.

Lemma select_combine {A B : Type} (m : list bool) (l : list A) (r : list B) :
  combine (select m l) (select m r) = select m (combine l r).
Proof.
  revert l r. induction m as [|b m IH]; intros l r; [reflexivity|].
  destruct l as [|x l]; [reflexivity|].
  destruct r as [|y r].
  - simpl combine at 2. rewrite !select_nil_r. apply combine_nil.
  - simpl. destruct b; simpl; now rewrite IH.
Qed.

Lemma select_map {A B : Type} (g : A -> B) (m : list bool) (l : list A) :
  select m (map g l) = map g (select m l).
Proof.
  revert l. induction m as [|b m IH]; intros [|x l]; simpl; try reflexivity.
  destruct b; simpl; now rewrite IH.
Qed.

Lemma select_mask_on_pairs {A B : Type} (f : B -> bool) (l : list A)
    (r : list B) :
  select (map f r) (combine l r) = filter (fun p => f (snd p)) (combine l r).
Proof.
  revert l. induction r as [|y r IH]; intros [|x l]; simpl; try reflexivity.
  destruct (f y); now rewrite IH.
Qed.

Lemma select_length_same {A B : Type} (m : list bool) (l : list A)
    (r : list B) :
  length l = length r -> length (select m l) = length (select m r).
Proof.
  revert l r. induction m as [|b m IH]; intros [|x l] [|y r] H;
    simpl in *; try reflexivity; try discriminate.
  injection H as H. destruct b; simpl; now rewrite (IH l r).
Qed.

Lemma select_none {A : Type} (m : list bool) (l : list A) :
  Forall (fun b => b = false) m -> select m l = [].
Proof.
  intros H. revert l. induction H as [|b m Hb _ IH]; intros [|x l];
    simpl; try reflexivity.
  rewrite Hb. apply IH.
Qed.

Lemma numeric_select_col (m : list bool) (k : column) (v : list float) :
  numeric k = Some v -> numeric (select_col m k) = Some (select m v).
Proof.
  destruct k as [z|f|[|o os]]; simpl; intros H; inversion H; subst.
  - now rewrite select_map.
  - reflexivity.
  - now rewrite !select_nil_r.
Qed.

Lemma numeric_length (k : column) (v : list float) :
  numeric k = Some v -> length v = col_len k.
Proof.
  destruct k as [z|f|[|o os]]; simpl; intros H; inversion H; subst;
    [apply length_map | reflexivity | reflexivity].
Qed.

(* ================================================================== *)
(** ** Running one iteration *)
(* ================================================================== *)

(** One pass of the body over a numeric column [k] named [c], with
    values [v]. *)
Section NumericColumn.

Variables (e : Env) (c : string) (k : column) (v : list float).
Hypothesis Hl : lookup c (columns (df e)) = Some k.
Hypothesis Hn : numeric k = Some v.

(** The body run on the column is the closed form [after]. *)
Lemma iteration_numeric : iteration c e = (Ok tt, after e c k v).
Proof.
  unfold iteration, df_col, bind, read, lift, assign, print, ret,
    getitem, quantile, lt_scalar, gt_scalar, getitem_mask, bor.
  cbn [df col Q1 Q3 IQR lower_bound upper_bound outliers stdout
       set_col set_Q1 set_Q3 set_IQR set_lower_bound set_upper_bound
       set_outliers set_stdout numerical_cols columns index
       s_values s_index b_values b_index].
  rewrite Hl. cbn [s_values s_index]. rewrite Hn.
  cbn [b_values b_index columns index].
  rewrite lookup_getitem_mask, Hl. cbn [option_map].
  rewrite zip_or_map. fold (outside
    (fsub (percentile (dropna v) (1 # 4))
       (fmul (Fin (3 # 2))
          (fsub (percentile (dropna v) (3 # 4)) (percentile (dropna v) (1 # 4)))))
    (fadd (percentile (dropna v) (3 # 4))
       (fmul (Fin (3 # 2))
          (fsub (percentile (dropna v) (3 # 4)) (percentile (dropna v) (1 # 4)))))).
  unfold after. cbv zeta.
  set (o := mkSeries _ _).
  destruct (0 <? len o)%nat;
    cbn [df col Q1 Q3 IQR lower_bound upper_bound outliers stdout
         numerical_cols set_stdout];
    rewrite <- !app_assoc; reflexivity.
Qed.

Lemma stdout_after :
  stdout (after e c k v) = stdout e ++ printed e c k v.
Proof. reflexivity. Qed.

Lemma headers_printed :
  headers (printed e c k v) = [c].
Proof.
  unfold printed. cbv zeta.
  destruct (0 <? len (outliers (after e c k v)))%nat; reflexivity.
Qed.

(** The rows the iteration leaves in [outliers]: those outside the fence,
    in table order. *)
Lemma rows_after :
  rows (outliers (after e c k v))
  = filter (fun r => outside (lower_bound (after e c k v))
                             (upper_bound (after e c k v)) (snd r))
           (combine (index (df e)) v).
Proof.
  unfold rows, after.
  cbn [outliers lower_bound upper_bound s_values s_index].
  rewrite (numeric_select_col _ _ _ Hn), select_combine.
  apply select_mask_on_pairs.
Qed.

Lemma len_after :
  length (index (df e)) = length v ->
  len (outliers (after e c k v)) = length (rows (outliers (after e c k v))).
Proof.
  intros Hlen. unfold rows, len, after. cbn [outliers s_values s_index].
  rewrite (numeric_select_col _ _ _ Hn), length_combine.
  rewrite <- (select_length_same _ _ _ Hlen). lia.
Qed.

End NumericColumn.

(** What [scan] returns is what the iteration left in [outliers],
    whatever the other variables held before. *)
Lemma scan_numeric (e : Env) (c : string) (k : column) (v : list float) :
  lookup c (columns (df e)) = Some k ->
  numeric k = Some v ->
  scan (df e) c
  = Ok (len (outliers (after e c k v)), outliers (after e c k v)).
Proof.
  intros Hl Hn. unfold scan.
  rewrite (iteration_numeric (loaded (df e)) c k v Hl Hn). reflexivity.
Qed.

Lemma iteration_absent (e : Env) (c : string) :
  lookup c (columns (df e)) = None ->
  iteration c e = (Raise (KeyError c), set_col c e).
Proof.
  intros Hl.
  unfold iteration, df_col, bind, read, lift, assign, getitem.
  cbn [df col set_col]. rewrite Hl. reflexivity.
Qed.

Lemma iteration_object (e : Env) (c : string) (k : column) :
  lookup c (columns (df e)) = Some k ->
  numeric k = None ->
  iteration c e = (Raise TypeError, set_col c e).
Proof.
  intros Hl Hn.
  unfold iteration, df_col, bind, read, lift, assign, getitem, quantile.
  cbn [df col set_col]. rewrite Hl. cbn [s_values]. rewrite Hn. reflexivity.
Qed.

(* ================================================================== *)
(** ** Order statistics and the linear-interpolation quantile *)
(* ================================================================== *)

Lemma insert_perm (x : Q) (l : list Q) : Permutation (insert x l) (x :: l).
Proof.
  induction l as [|y l IH]; simpl; [reflexivity|].
  destruct (Qle_bool x y); [reflexivity|].
  rewrite IH. apply perm_swap.
Qed.

Lemma sort_perm (l : list Q) : Permutation (sort l) l.
Proof.
  induction l as [|x l IH]; simpl; [reflexivity|].
  rewrite insert_perm. now constructor.
Qed.

Lemma sort_length (l : list Q) : length (sort l) = length l.
Proof. apply Permutation_length, sort_perm. Qed.

Lemma insert_sorted (x : Q) (l : list Q) :
  StronglySorted Qle l -> StronglySorted Qle (insert x l).
Proof.
  induction 1 as [|y l Hs IH Hy]; simpl.
  - repeat constructor.
  - destruct (Qle_bool x y) eqn:E.
    + apply Qle_bool_iff in E. constructor.
      * now constructor.
      * constructor; [exact E|].
        eapply Forall_impl; [|exact Hy].
        intros z Hz. now apply Qle_trans with y.
    + assert (Hyx : y <= x).
      { destruct (Qlt_le_dec y x) as [H|H]; [now apply Qlt_le_weak|].
        apply Qle_bool_iff in H. congruence. }
      constructor; [exact IH|].
      apply (Permutation_Forall (Permutation_sym (insert_perm x l))).
      now constructor.
Qed.

Lemma sort_sorted (l : list Q) : StronglySorted Qle (sort l).
Proof.
  induction l as [|x l IH]; simpl; [constructor | now apply insert_sorted].
Qed.

Lemma sorted_nth_le (s : list Q) :
  StronglySorted Qle s ->
  forall i j, (i <= j < length s)%nat -> nth i s 0 <= nth j s 0.
Proof.
  induction 1 as [|x s Hs IH Hx]; intros i j [Hij Hj]; simpl in Hj; [lia|].
  destruct i as [|i], j as [|j]; simpl; try lia.
  - apply Qle_refl.
  - rewrite Forall_forall in Hx. apply Hx, nth_In. lia.
  - apply IH. lia.
Qed.

(** *** The virtual index *)

Lemma floor_nonneg (h : Q) : 0 <= h -> (0 <= Qfloor h)%Z.
Proof.
  intros H. change 0%Z with (Qfloor (inject_Z 0)).
  now apply Qfloor_resp_le.
Qed.

Lemma frac_bounds (h : Q) :
  0 <= h - inject_Z (Qfloor h) /\ h - inject_Z (Qfloor h) < 1.
Proof.
  pose proof (Qfloor_le h) as H1.
  pose proof (Qlt_floor h) as H2.
  rewrite inject_Z_plus in H2. change (inject_Z 1) with 1 in H2.
  split; lra.
Qed.

Lemma floor_le_last (n : nat) (h : Q) :
  0 <= h -> h <= inject_Z (Z.of_nat n - 1) ->
  (Z.to_nat (Qfloor h) <= n - 1)%nat.
Proof.
  intros H0 H1.
  pose proof (floor_nonneg h H0) as Hf.
  apply Qfloor_resp_le in H1. rewrite Qfloor_Z in H1. lia.
Qed.

Lemma position_nonempty (n : nat) (h : Q) :
  0 <= h -> h <= inject_Z (Z.of_nat n - 1) -> (0 < n)%nat.
Proof.
  intros H0 H1. destruct n; [|lia].
  assert (inject_Z (Z.of_nat 0 - 1) < 0) by reflexivity. lra.
Qed.

Lemma lerp_between (a b t : Q) :
  a <= b -> 0 <= t -> t <= 1 -> a <= lerp a b t /\ lerp a b t <= b.
Proof. unfold lerp. intros. split; nra. Qed.

(** On sorted values the value at a position lies between the two order
    statistics around it. *)
Lemma at_position_between (s : list Q) (h : Q) :
  StronglySorted Qle s -> 0 <= h -> h <= inject_Z (Z.of_nat (length s) - 1) ->
  nth (Z.to_nat (Qfloor h)) s 0 <= at_position s h /\
  at_position s h
    <= nth (Nat.min (Z.to_nat (Qfloor h) + 1) (length s - 1)) s 0.
Proof.
  intros Hs H0 H1. unfold at_position. cbv zeta.
  pose proof (floor_le_last _ _ H0 H1) as Hi.
  pose proof (frac_bounds h) as [Hg0 Hg1].
  pose proof (position_nonempty _ _ H0 H1) as Hn.
  apply lerp_between; [|lra|lra].
  apply sorted_nth_le; [exact Hs|]. lia.
Qed.

(** The value at a position grows with the position. *)
Lemma at_position_mono (s : list Q) (h h' : Q) :
  StronglySorted Qle s ->
  0 <= h -> h <= h' -> h' <= inject_Z (Z.of_nat (length s) - 1) ->
  at_position s h <= at_position s h'.
Proof.
  intros Hs H0 Hhh H1.
  assert (H0' : 0 <= h') by lra.
  assert (H1' : h <= inject_Z (Z.of_nat (length s) - 1)) by lra.
  pose proof (floor_le_last _ _ H0 H1') as Hi.
  pose proof (floor_le_last _ _ H0' H1) as Hi'.
  pose proof (floor_nonneg _ H0) as Hf.
  pose proof (floor_nonneg _ H0') as Hf'.
  pose proof (Qfloor_resp_le _ _ Hhh) as Hff.
  pose proof (position_nonempty _ _ H0' H1) as Hn.
  destruct (Z.eq_dec (Qfloor h) (Qfloor h')) as [E|E].
  - unfold at_position. cbv zeta. rewrite <- E.
    set (a := nth (Z.to_nat (Qfloor h)) s 0).
    set (b := nth (Nat.min (Z.to_nat (Qfloor h) + 1) (length s - 1)) s 0).
    assert (Hab : a <= b).
    { apply sorted_nth_le; [exact Hs|]. lia. }
    unfold lerp. nra.
  - pose proof (at_position_between s h Hs H0 H1') as [_ Hup].
    pose proof (at_position_between s h' Hs H0' H1) as [Hlow _].
    apply Qle_trans with (2 := Hlow). apply Qle_trans with (1 := Hup).
    apply sorted_nth_le; [exact Hs|]. lia.
Qed.

(** Q1 is at most Q3 whenever there is a value. *)
Lemma quartiles_ordered (xs : list Q) :
  xs <> [] ->
  exists a b, percentile xs (1 # 4) = Fin a /\ percentile xs (3 # 4) = Fin b
              /\ a <= b.
Proof.
  intros Hne. destruct xs as [|x xs]; [congruence|].
  unfold percentile. do 2 eexists. split; [reflexivity|]. split; [reflexivity|].
  set (l := x :: xs).
  assert (Hn : 0 <= inject_Z (Z.of_nat (length l) - 1)).
  { change 0 with (inject_Z 0). rewrite <- Zle_Qle.
    subst l. cbn [length]. lia. }
  apply at_position_mono.
  - apply sort_sorted.
  - nra.
  - nra.
  - rewrite sort_length. nra.
Qed.

(** *** Order statistics of a rearrangement *)

Lemma count_le_perm (z : Q) (l l' : list Q) :
  Permutation l l' ->
  length (filter (fun x => Qle_bool x z) l)
  = length (filter (fun x => Qle_bool x z) l').
Proof.
  induction 1 as [|x l l' _ IH|x y l|l l' l'' _ IH1 _ IH2]; simpl.
  - reflexivity.
  - destruct (Qle_bool x z); simpl; now rewrite IH.
  - destruct (Qle_bool x z), (Qle_bool y z); reflexivity.
  - now rewrite IH1.
Qed.

(** In sorted values the [i]-th one is at most [z] exactly when more than
    [i] values are. *)
Lemma sorted_nth_count (z : Q) (s : list Q) :
  StronglySorted Qle s ->
  forall i, (i < length s)%nat ->
    (nth i s 0 <= z <-> (i < length (filter (fun x => Qle_bool x z) s))%nat).
Proof.
  induction 1 as [|x s Hs IH Hx]; intros i Hi; simpl in Hi; [lia|].
  simpl. destruct (Qle_bool x z) eqn:E.
  - apply Qle_bool_iff in E. destruct i as [|i]; simpl.
    + split; [lia | auto].
    + rewrite IH by lia. lia.
  - assert (Hzx : z < x).
    { destruct (Qlt_le_dec z x) as [H|H]; [exact H|].
      apply Qle_bool_iff in H. congruence. }
    assert (Hnone : filter (fun y => Qle_bool y z) s = []).
    { clear IH Hi. induction Hx as [|y s Hy _ IHs]; [reflexivity|].
      simpl. inversion Hs; subst.
      destruct (Qle_bool y z) eqn:Ey; [|auto].
      apply Qle_bool_iff in Ey. lra. }
    rewrite Hnone. simpl. split; [|lia].
    intros Hn. exfalso. destruct i as [|i]; [lra|].
    assert (x <= nth i s 0).
    { rewrite Forall_forall in Hx. apply Hx, nth_In. lia. }
    lra.
Qed.

(** Two ascending arrangements of the same values agree position by
    position. *)
Lemma sorted_perm_nth (s s' : list Q) :
  StronglySorted Qle s -> StronglySorted Qle s' -> Permutation s s' ->
  forall i, nth i s 0 == nth i s' 0.
Proof.
  intros Hs Hs' Hp i.
  pose proof (Permutation_length Hp) as Hlen.
  destruct (Nat.lt_ge_cases i (length s)) as [Hi|Hi].
  - apply Qle_antisym.
    + apply (sorted_nth_count _ s Hs i Hi).
      rewrite (count_le_perm _ _ _ Hp).
      apply (sorted_nth_count _ s' Hs' i); [lia | apply Qle_refl].
    + apply (sorted_nth_count _ s' Hs' i); [lia|].
      rewrite <- (count_le_perm _ _ _ Hp).
      apply (sorted_nth_count _ s Hs i Hi), Qle_refl.
  - rewrite !nth_overflow by lia. reflexivity.
Qed.

(* ================================================================== *)
(** ** The loop and the whole notebook *)
(* ================================================================== *)

(** Every run of the body falls in one of three cases. *)
Lemma iteration_cases (e : Env) (c : string) :
  (exists k v, lookup c (columns (df e)) = Some k /\ numeric k = Some v /\
               iteration c e = (Ok tt, after e c k v))
  \/ (lookup c (columns (df e)) = None /\
      iteration c e = (Raise (KeyError c), set_col c e))
  \/ (exists k, lookup c (columns (df e)) = Some k /\ numeric k = None /\
                iteration c e = (Raise TypeError, set_col c e)).
Proof.
  destruct (lookup c (columns (df e))) as [k|] eqn:Hl.
  - destruct (numeric k) as [v|] eqn:Hn.
    + left. exists k, v. repeat split; trivial.
      now apply iteration_numeric.
    + right; right. exists k. repeat split; trivial.
      now apply (iteration_object e c k).
  - right; left. split; [reflexivity|]. now apply iteration_absent.
Qed.

Lemma iteration_df (e : Env) (c : string) : df (snd (iteration c e)) = df e.
Proof.
  destruct (iteration_cases e c)
    as [(k & v & _ & _ & H) | [(_ & H) | (k & _ & _ & H)]];
    rewrite H; reflexivity.
Qed.

Lemma numeric_of_is_numeric (k : column) :
  is_numeric k = true -> exists v, numeric k = Some v.
Proof. destruct k; simpl; intros H; try discriminate; eauto. Qed.

Lemma lookup_in (c : string) (cs : list (string * column)) (k : column) :
  lookup c cs = Some k -> In (c, k) cs.
Proof.
  induction cs as [|[n k0] cs IH]; simpl; [discriminate|].
  destruct (String.eqb n c) eqn:E.
  - apply String.eqb_eq in E. intros H. inversion H. subst. auto.
  - auto.
Qed.

(* ================================================================== *)
(** ** The scanner's properties *)
(* ================================================================== *)

Lemma aligned_length (d : DataFrame) (c : string) (k : column)
    (v : list float) :
  aligned d -> lookup c (columns d) = Some k -> numeric k = Some v ->
  length (index d) = length v.
Proof.
  intros Ha Hl Hn. unfold aligned in Ha. rewrite Forall_forall in Ha.
  specialize (Ha _ (lookup_in _ _ _ Hl)). cbn in Ha.
  now rewrite (numeric_length _ _ Hn).
Qed.

(** C2, as stated, fails: on a table without rows the scan of a numeric
    column returns normally, with count 0 and no row. *)
Lemma scan_no_rows_returns :
  index no_rows = [] /\
  scan no_rows "x" = Ok (0%nat, mkSeries [] (Float64 [])) /\
  notebook (loaded no_rows)
  = (Ok tt,
     mkEnv no_rows ["x"%string] "x" NaN NaN NaN NaN NaN
           (mkSeries [] (Float64 [])) [Header "x"; Count 0]).
Proof. by_running. Qed.

(** C2, amended.  On a table with zero rows the scan of a numeric column
    does not fail: both quartiles, the IQR and both bounds are NaN, no row
    is flagged, the count is 0 and only the two report lines are printed. *)
Theorem scan_zero_rows
    (e : Env) (c : string) (k : column) (v : list float) :
  index (df e) = [] ->
  aligned (df e) ->
  lookup c (columns (df e)) = Some k ->
  numeric k = Some v ->
  exists e',
    iteration c e = (Ok tt, e') /\
    Q1 e' = NaN /\ Q3 e' = NaN /\ IQR e' = NaN /\
    lower_bound e' = NaN /\ upper_bound e' = NaN /\
    rows (outliers e') = [] /\
    len (outliers e') = 0%nat /\
    scan (df e) c = Ok (0%nat, outliers e') /\
    stdout e' = stdout e ++ [Header c; Count 0].
Proof.
  intros Hz Ha Hl Hn.
  pose proof (aligned_length _ _ _ _ Ha Hl Hn) as Hlen.
  rewrite Hz in Hlen. destruct v as [|y v]; [|discriminate].
  exists (after e c k []).
  split; [now apply iteration_numeric|].
  do 5 (split; [reflexivity|]).
  assert (Hlen0 : len (outliers (after e c k [])) = 0%nat) by reflexivity.
  split; [|split; [exact Hlen0|split]].
  - rewrite (rows_after e c k [] Hn). now rewrite combine_nil.
  - rewrite (scan_numeric e c k [] Hl Hn). now rewrite Hlen0.
  - rewrite stdout_after. unfold printed. cbv zeta. now rewrite Hlen0.
Qed.

Lemma scan_zero_rows_witness :
  exists e', iteration "x" (loaded no_rows) = (Ok tt, e') /\
             len (outliers e') = 0%nat.
Proof.
  destruct (scan_zero_rows (loaded no_rows) "x" (Float64 []) [])
    as (e' & Hrun & _ & _ & _ & _ & _ & _ & Hlen & _).
  - reflexivity.
  - repeat constructor.
  - reflexivity.
  - reflexivity.
  - exists e'. split; [exact Hrun | exact Hlen].
Defined.

(** C5.  For the column values [1, 2, 2, 3, 3, 3, 4, 4, 100], held as
    int64 (column x) or as float64 (column y), the iteration yields
    Q1 = 2, Q3 = 4, IQR = 2, lower bound = -1, upper bound = 7, and the
    single outlier 100 (row 8), count 1. *)
Theorem scenario_nine_values :
  forall c : string, c = "x"%string \/ c = "y"%string ->
  exists e',
    iteration c (loaded sample9) = (Ok tt, e') /\
    feq (Q1 e') (Fin 2) /\ feq (Q3 e') (Fin 4) /\ feq (IQR e') (Fin 2) /\
    feq (lower_bound e') (Fin (-1)) /\ feq (upper_bound e') (Fin 7) /\
    rows (outliers e') = [(8%nat, Fin 100)] /\
    len (outliers e') = 1%nat /\
    scan sample9 c = Ok (1%nat, outliers e') /\
    stdout e' = [Header c; Count 1; Shown (outliers e')].
Proof.
  intros c [-> | ->].
  - exists (snd (iteration "x" (loaded sample9))). by_running.
  - exists (snd (iteration "y" (loaded sample9))). by_running.
Qed.

Lemma scenario_nine_values_witness :
  exists e', iteration "x" (loaded sample9) = (Ok tt, e') /\
             rows (outliers e') = [(8%nat, Fin 100)].
Proof.
  destruct (scenario_nine_values "x" (or_introl eq_refl))
    as (e' & Hrun & _ & _ & _ & _ & _ & Hrows & _).
  exists e'. split; [exact Hrun | exact Hrows].
Defined.

(** *** Missing values *)

Lemma outside_nan (lo hi : float) : outside lo hi NaN = false.
Proof. unfold outside, fgt, flt. now destruct hi. Qed.

(** *** Determinism, dependence on the selected column only *)

Lemma report_after (e1 e2 : Env) (c : string) (k : column) (v : list float) :
  index (df e1) = index (df e2) ->
  report (after e1 c k v) = report (after e2 c k v) /\
  printed e1 c k v = printed e2 c k v.
Proof.
  intros H. unfold printed, report, after. cbv zeta.
  cbn [Q1 Q3 IQR lower_bound upper_bound outliers]. now rewrite H.
Qed.

(** Two runs of the body on kernels holding the same table agree on the
    outcome, on the lines printed and, when the body completes, on every
    variable it assigns. *)
Lemma iteration_same_table (e1 e2 : Env) (c : string) :
  df e1 = df e2 ->
  fst (iteration c e1) = fst (iteration c e2) /\
  (fst (iteration c e1) = Ok tt ->
   report (snd (iteration c e1)) = report (snd (iteration c e2))) /\
  (exists out,
      stdout (snd (iteration c e1)) = stdout e1 ++ out /\
      stdout (snd (iteration c e2)) = stdout e2 ++ out).
Proof.
  intros Hdf.
  destruct (iteration_cases e1 c)
    as [(k & v & Hl & Hn & H1) | [(Hl & H1) | (k & Hl & Hn & H1)]];
    rewrite H1; rewrite Hdf in Hl.
  - rewrite (iteration_numeric e2 c k v Hl Hn). cbn [fst snd].
    destruct (report_after e1 e2 c k v) as [Hr Hp]; [now rewrite Hdf|].
    split; [reflexivity|]. split; [auto|].
    exists (printed e1 c k v). rewrite !stdout_after. now rewrite Hp.
  - rewrite (iteration_absent e2 c Hl). cbn [fst snd].
    split; [reflexivity|]. split; [discriminate|].
    exists []. now rewrite !app_nil_r.
  - rewrite (iteration_object e2 c k Hl Hn). cbn [fst snd].
    split; [reflexivity|]. split; [discriminate|].
    exists []. now rewrite !app_nil_r.
Qed.

(** C8.  The scan is a deterministic function of the table and the
    column: two kernels holding the same table give the same outcome, the
    same quartiles, bounds and outlier series, the same printed lines and
    the same [scan] result, whatever their other variables held; in
    particular a second call right after the first repeats its results. *)
Theorem scan_twice_same_result (e1 e2 : Env) (c : string) :
  df e1 = df e2 ->
  (fst (iteration c e1) = fst (iteration c e2) /\
   (fst (iteration c e1) = Ok tt ->
    report (snd (iteration c e1)) = report (snd (iteration c e2))) /\
   (exists out,
       stdout (snd (iteration c e1)) = stdout e1 ++ out /\
       stdout (snd (iteration c e2)) = stdout e2 ++ out)) /\
  scan (df e1) c = scan (df e2) c /\
  (fst (iteration c (snd (iteration c e1))) = fst (iteration c e1) /\
   (fst (iteration c e1) = Ok tt ->
    report (snd (iteration c (snd (iteration c e1))))
    = report (snd (iteration c e1))) /\
   (exists out,
       stdout (snd (iteration c e1)) = stdout e1 ++ out /\
       stdout (snd (iteration c (snd (iteration c e1))))
       = stdout (snd (iteration c e1)) ++ out)).
Proof.
  intros Hdf. split; [now apply iteration_same_table|].
  split; [now rewrite Hdf|].
  destruct (iteration_same_table e1 (snd (iteration c e1)) c)
    as (Hf & Hr & out & Ho1 & Ho2).
  { symmetry. apply iteration_df. }
  split; [now symmetry|]. split.
  - intros Hok. symmetry. now apply Hr.
  - now exists out.
Qed.

Lemma scan_twice_same_result_witness :
  report (snd (iteration "x" (loaded sample9)))
  = report (snd (iteration "x"
                   (set_Q1 (Fin 7) (set_stdout [Count 3] (loaded sample9))))).
Proof.
  destruct (scan_twice_same_result
              (loaded sample9)
              (set_Q1 (Fin 7) (set_stdout [Count 3] (loaded sample9))) "x")
    as ((_ & H & _) & _).
  - reflexivity.
  - apply H. vm_compute. reflexivity.
Defined.

(** C10.  The flagged rows and the count depend on the selected column
    only: for two tables with the same number of rows whose selected
    (numeric) column holds the same values, the iteration computes the
    same quartiles and bounds, flags the same row positions (one mask [m]
    selects the outliers of both tables), returns the same outlier values
    and the same count, whatever the other columns hold. *)
Theorem flags_depend_on_selected_column_only
    (e1 e2 : Env) (c : string) (k : column) (v : list float) :
  length (index (df e1)) = length (index (df e2)) ->
  lookup c (columns (df e1)) = Some k ->
  lookup c (columns (df e2)) = Some k ->
  numeric k = Some v ->
  exists e1' e2' m,
    iteration c e1 = (Ok tt, e1') /\
    iteration c e2 = (Ok tt, e2') /\
    length m = length v /\
    s_index (outliers e1') = select m (index (df e1)) /\
    s_index (outliers e2') = select m (index (df e2)) /\
    s_values (outliers e1') = s_values (outliers e2') /\
    len (outliers e1') = len (outliers e2') /\
    (Q1 e1', Q3 e1', IQR e1', lower_bound e1', upper_bound e1')
    = (Q1 e2', Q3 e2', IQR e2', lower_bound e2', upper_bound e2') /\
    (exists n o1 o2, scan (df e1) c = Ok (n, o1) /\
                     scan (df e2) c = Ok (n, o2) /\
                     s_values o1 = s_values o2).
Proof.
  intros Hlen Hl1 Hl2 Hn.
  exists (after e1 c k v), (after e2 c k v).
  eexists. split; [now apply iteration_numeric|].
  split; [now apply iteration_numeric|].
  unfold after at 1 2 3 4 5 6. cbv zeta. cbn [outliers s_index s_values].
  split; [apply length_map|].
  do 3 (split; [reflexivity|]).
  assert (Hsame : len (outliers (after e1 c k v))
                  = len (outliers (after e2 c k v))).
  { unfold len, after. cbv zeta. cbn [outliers s_index].
    now apply select_length_same. }
  split; [exact Hsame|]. split; [reflexivity|].
  exists (len (outliers (after e1 c k v))),
         (outliers (after e1 c k v)), (outliers (after e2 c k v)).
  rewrite (scan_numeric e1 c k v Hl1 Hn), (scan_numeric e2 c k v Hl2 Hn).
  split; [reflexivity|]. split; [now rewrite Hsame | reflexivity].
Qed.

Lemma flags_depend_on_selected_column_only_witness :
  exists n o1 o2,
    scan sample9 "x" = Ok (n, o1) /\
    scan (mkDataFrame (seq 0 9)
            [("x"%string, Int64 [1; 2; 2; 3; 3; 3; 4; 4; 100]%Z)]) "x"
    = Ok (n, o2) /\
    s_values o1 = s_values o2.
Proof.
  destruct (flags_depend_on_selected_column_only
              (loaded sample9)
              (loaded (mkDataFrame (seq 0 9)
                 [("x"%string, Int64 [1; 2; 2; 3; 3; 3; 4; 4; 100]%Z)]))
              "x" (Int64 [1; 2; 2; 3; 3; 3; 4; 4; 100]%Z)
              (map of_int [1; 2; 2; 3; 3; 3; 4; 4; 100]%Z))
    as (_ & _ & _ & _ & _ & _ & _ & _ & _ & _ & _ & H).
  - reflexivity.
  - reflexivity.
  - reflexivity.
  - reflexivity.
  - exact H.
Defined.

(* ================================================================== *)
(** ** The loop over the numerical columns *)
(* ================================================================== *)

(** For a numeric column the lines of its scan are those the body
    prints. *)
Lemma scan_lines_numeric (e : Env) (c : string) (k : column) (v : list float) :
  lookup c (columns (df e)) = Some k -> numeric k = Some v ->
  scan_lines (df e) c = printed e c k v.
Proof.
  intros Hl Hn. unfold scan_lines.
  now rewrite (scan_numeric e c k v Hl Hn).
Qed.

Lemma for_each_app (a b : list string) (e : Env) :
  for_each (a ++ b) iteration e
  = match for_each a iteration e with
    | (Ok _, e1) => for_each b iteration e1
    | (Raise x, e1) => (Raise x, e1)
    end.
Proof.
  revert e. induction a as [|c a IH]; intros e; [reflexivity|].
  cbn [app for_each]. unfold bind.
  destruct (iteration c e) as [[[]|x] e1]; [apply IH | reflexivity].
Qed.

(** The loop over names that all are numeric columns of the table: it
    completes, keeps the table and the list of names, prints the report
    of each name in turn, and ends in the state of the last name. *)
Lemma for_each_reports (names : list string) (e : Env) :
  Forall (fun c => exists k v, lookup c (columns (df e)) = Some k /\
                               numeric k = Some v) names ->
  exists e',
    for_each names iteration e = (Ok tt, e') /\
    df e' = df e /\ numerical_cols e' = numerical_cols e /\
    stdout e' = stdout e ++ flat_map (scan_lines (df e)) names /\
    (names = [] -> e' = e) /\
    (names <> [] ->
     col e' = last names EmptyString /\
     scan (df e) (last names EmptyString)
     = Ok (len (outliers e'), outliers e') /\
     report e'
     = report (snd (iteration (last names EmptyString) (loaded (df e))))).
Proof.
  revert e. induction names as [|c names IH]; intros e Hall.
  - exists e. cbn [for_each flat_map]. rewrite app_nil_r.
    split; [reflexivity|]. do 4 (split; [reflexivity|]).
    intros H. now contradiction H.
  - inversion Hall as [|? ? (k & v & Hl & Hn) Hrest]; subst.
    cbn [for_each]. unfold bind.
    rewrite (iteration_numeric e c k v Hl Hn).
    destruct (IH (after e c k v)) as (e' & Hrun & Hdf & Hnc & Hout & He & Hlast).
    { exact Hrest. }
    change (df (after e c k v)) with (df e) in *.
    change (numerical_cols (after e c k v)) with (numerical_cols e) in *.
    exists e'. split; [exact Hrun|]. split; [exact Hdf|]. split; [exact Hnc|].
    split; [|split; [discriminate|]].
    + rewrite Hout, stdout_after. cbn [flat_map].
      rewrite (scan_lines_numeric e c k v Hl Hn). now rewrite app_assoc.
    + intros _. destruct names as [|c' names].
      * rewrite (He eq_refl). cbn [last]. split; [reflexivity|].
        split; [apply (scan_numeric e c k v Hl Hn)|].
        rewrite (iteration_numeric (loaded (df e)) c k v Hl Hn). cbn [snd].
        apply (report_after e (loaded (df e)) c k v). reflexivity.
      * change (last (c :: c' :: names) EmptyString)
          with (last (c' :: names) EmptyString).
        apply Hlast. discriminate.
Qed.

(** X1.  Run over names that all are numeric columns of the table, the
    loop of Section 9 completes and prints, for each name in turn, exactly
    the report of that column's own scan: header, count and, when the
    count is positive, the first rows of its outliers.  No iteration
    influences the report of another. *)
Theorem loop_prints_scan_of_each_column (e : Env) :
  Forall (fun c => exists k v, lookup c (columns (df e)) = Some k /\
                               numeric k = Some v) (numerical_cols e) ->
  exists e',
    detect_outliers e = (Ok tt, e') /\
    stdout e' = stdout e ++ flat_map (scan_lines (df e)) (numerical_cols e) /\
    headers (flat_map (scan_lines (df e)) (numerical_cols e))
    = numerical_cols e.
Proof.
  intros Hall.
  destruct (for_each_reports _ e Hall) as (e' & Hrun & _ & _ & Hout & _).
  exists e'. split; [exact Hrun|]. split; [exact Hout|].
  clear Hrun Hout. induction Hall as [|c names (k & v & Hl & Hn) _ IH];
    [reflexivity|].
  cbn [flat_map]. unfold headers in *. rewrite flat_map_app, IH.
  rewrite (scan_lines_numeric e c k v Hl Hn).
  fold (headers (printed e c k v)). now rewrite headers_printed.
Qed.

Lemma loop_prints_scan_of_each_column_witness :
  exists e',
    detect_outliers (set_numerical_cols ["y"; "x"]%string (loaded sample9))
    = (Ok tt, e') /\
    stdout e' = scan_lines sample9 "y" ++ scan_lines sample9 "x".
Proof.
  destruct (loop_prints_scan_of_each_column
              (set_numerical_cols ["y"; "x"]%string (loaded sample9)))
    as (e' & Hrun & Hout & _).
  - repeat constructor; do 2 eexists; split; reflexivity.
  - exists e'. split; [exact Hrun|].
    rewrite Hout. vm_compute. reflexivity.
Defined.

(** X2.  When the list of names is stale (a name is no longer a column
    of the table), the loop reports the names before it, raises KeyError
    at it and never visits the names after it; the table is unchanged and
    the reports already printed stay. *)
Theorem loop_stops_at_absent_name
    (e : Env) (done : list string) (bad : string) (rest : list string) :
  numerical_cols e = done ++ bad :: rest ->
  Forall (fun c => exists k v, lookup c (columns (df e)) = Some k /\
                               numeric k = Some v) done ->
  lookup bad (columns (df e)) = None ->
  exists e',
    detect_outliers e = (Raise (KeyError bad), e') /\
    col e' = bad /\ df e' = df e /\
    stdout e' = stdout e ++ flat_map (scan_lines (df e)) done /\
    headers (flat_map (scan_lines (df e)) done) = done.
Proof.
  intros Hnames Hdone Hbad.
  destruct (for_each_reports done e Hdone)
    as (e1 & Hrun & Hdf & _ & Hout & _).
  exists (set_col bad e1).
  unfold detect_outliers, bind, read. rewrite Hnames, for_each_app, Hrun.
  cbn [for_each]. unfold bind.
  rewrite (iteration_absent e1 bad) by now rewrite Hdf.
  repeat split; trivial.
  clear Hrun Hout Hnames. induction Hdone as [|c names (k & v & Hl & Hn) _ IH];
    [reflexivity|].
  cbn [flat_map]. unfold headers in *. rewrite flat_map_app, IH.
  rewrite (scan_lines_numeric e c k v Hl Hn).
  fold (headers (printed e c k v)). now rewrite headers_printed.
Qed.

Lemma loop_stops_at_absent_name_witness :
  exists e',
    detect_outliers
      (set_numerical_cols ["x"; "petal"; "y"]%string (loaded sample9))
    = (Raise (KeyError "petal"), e') /\
    stdout e' = scan_lines sample9 "x".
Proof.
  destruct (loop_stops_at_absent_name
              (set_numerical_cols ["x"; "petal"; "y"]%string (loaded sample9))
              ["x"%string] "petal" ["y"%string])
    as (e' & Hrun & _ & _ & Hout & _).
  - reflexivity.
  - repeat constructor; do 2 eexists; split; reflexivity.
  - reflexivity.
  - exists e'. split; [exact Hrun|].
    rewrite Hout. vm_compute. reflexivity.
Defined.

(** X3.  The loop keeps one set of variables: after it, [col], [Q1],
    [Q3], [IQR], the bounds and [outliers] hold the results of the last
    name only (what a scan of that column alone gives); with no name at
    all the loop changes and prints nothing. *)
Theorem loop_leaves_last_column (e : Env) :
  Forall (fun c => exists k v, lookup c (columns (df e)) = Some k /\
                               numeric k = Some v) (numerical_cols e) ->
  exists e',
    detect_outliers e = (Ok tt, e') /\
    (numerical_cols e = [] -> e' = e) /\
    (numerical_cols e <> [] ->
     col e' = last (numerical_cols e) EmptyString /\
     scan (df e) (last (numerical_cols e) EmptyString)
     = Ok (len (outliers e'), outliers e') /\
     report e'
     = report (snd (iteration (last (numerical_cols e) EmptyString)
                              (loaded (df e))))).
Proof.
  intros Hall.
  destruct (for_each_reports _ e Hall) as (e' & Hrun & _ & _ & _ & He & Hl).
  exists e'. auto.
Qed.

Lemma loop_leaves_last_column_witness :
  exists e',
    detect_outliers (set_numerical_cols ["y"; "x"]%string (loaded sample9))
    = (Ok tt, e') /\
    col e' = "x"%string /\
    scan sample9 "x" = Ok (len (outliers e'), outliers e').
Proof.
  destruct (loop_leaves_last_column
              (set_numerical_cols ["y"; "x"]%string (loaded sample9)))
    as (e' & Hrun & _ & Hlast).
  - repeat constructor; do 2 eexists; split; reflexivity.
  - destruct Hlast as (Hc & Hs & _); [discriminate|].
    exists e'. repeat split; assumption.
Defined.

(* ================================================================== *)
(** ** Where the fence lies *)
(* ================================================================== *)

(** The fence contains both quartiles. *)
Lemma fence_around_quartiles (a b : Q) :
  a <= b -> a - (3 # 2) * (b - a) <= a /\ b <= b + (3 # 2) * (b - a).
Proof. intros H. split; lra. Qed.

(** X4.  Every flagged row lies strictly outside the interquartile range:
    its value is strictly below Q1 or strictly above Q3, so a row whose
    value is between the two quartiles (bounds included) is never
    flagged. *)
Theorem outliers_lie_outside_the_quartiles
    (e : Env) (c : string) (k : column) (v : list float) :
  lookup c (columns (df e)) = Some k ->
  numeric k = Some v ->
  exists e',
    iteration c e = (Ok tt, e') /\
    forall i y, In (i, y) (rows (outliers e')) ->
                below y (Q1 e') \/ above y (Q3 e').
Proof.
  intros Hl Hn. exists (after e c k v).
  split; [now apply iteration_numeric|].
  intros i y Hin. rewrite (rows_after e c k v Hn) in Hin.
  apply filter_In in Hin as [_ Hout]. cbn [snd] in Hout.
  apply outside_iff in Hout.
  unfold after in *. cbv zeta in *. cbn [Q1 Q3 lower_bound upper_bound] in *.
  destruct (dropna v) as [|x0 xs] eqn:Hd.
  { cbn in Hout. unfold above, below in Hout.
    destruct Hout as [H|H]; destruct y; contradiction. }
  destruct (quartiles_ordered (x0 :: xs)) as (a & b & Ha & Hb & Hab);
    [discriminate|].
  rewrite Ha, Hb in *. cbn [fsub fmul fadd] in Hout.
  destruct (fence_around_quartiles a b Hab) as [H1 H2].
  destruct y as [|x]; [destruct Hout; contradiction|].
  unfold above, below in *. destruct Hout as [H|H]; [left | right]; lra.
Qed.

Lemma outliers_lie_outside_the_quartiles_witness :
  exists e',
    iteration "x" (loaded sample9) = (Ok tt, e') /\
    forall i y, In (i, y) (rows (outliers e')) ->
                below y (Q1 e') \/ above y (Q3 e').
Proof.
  apply (outliers_lie_outside_the_quartiles (loaded sample9) "x"
           (Int64 [1; 2; 2; 3; 3; 3; 4; 4; 100]%Z)
           (map of_int [1; 2; 2; 3; 3; 3; 4; 4; 100]%Z));
    reflexivity.
Defined.

Lemma count_present {A : Type} (f : float -> bool) (idx : list A)
    (v : list float) :
  f NaN = false -> length idx = length v ->
  length (filter (fun r => f (snd r)) (combine idx v))
  = length (filter (fun x => f (Fin x)) (dropna v)).
Proof.
  intros Hnan. revert idx. induction v as [|y v IH]; intros [|i idx] Hlen;
    simpl in *; try reflexivity; try discriminate.
  injection Hlen as Hlen. specialize (IH idx Hlen).
  destruct y as [|x]; simpl.
  - now rewrite Hnan.
  - destruct (f (Fin x)); simpl; now rewrite IH.
Qed.

(* ================================================================== *)
(** ** What the flags do not depend on *)
(* ================================================================== *)

Lemma same_refl (a : float) : same a a.
Proof. destruct a; simpl; [exact I | reflexivity]. Qed.

Lemma outside_same (lo lo' hi hi' y : float) :
  same lo lo' -> same hi hi' -> outside lo hi y = outside lo' hi' y.
Proof.
  unfold outside, fgt, flt.
  destruct lo, lo', hi, hi', y; simpl; intros H1 H2;
    try contradiction; try reflexivity;
    try rewrite H1; try rewrite H2; reflexivity.
Qed.

(** The fence of numerically equal quartiles. *)
Lemma fence_same (q1 q1' q3 q3' : float) :
  same q1 q1' -> same q3 q3' ->
  same (fsub q1 (fmul (Fin (3 # 2)) (fsub q3 q1)))
       (fsub q1' (fmul (Fin (3 # 2)) (fsub q3' q1'))) /\
  same (fadd q3 (fmul (Fin (3 # 2)) (fsub q3 q1)))
       (fadd q3' (fmul (Fin (3 # 2)) (fsub q3' q1'))).
Proof.
  destruct q1, q1', q3, q3'; simpl; intros H1 H2;
    try contradiction; try (split; exact I).
  split; rewrite H1, H2; reflexivity.
Qed.

Lemma dropna_perm (v v' : list float) :
  Permutation v v' -> Permutation (dropna v) (dropna v').
Proof.
  induction 1 as [|y v v' _ IH|x y v|v v' v'' _ IH1 _ IH2].
  - constructor.
  - destruct y; simpl; [exact IH | now constructor].
  - destruct x, y; simpl; try reflexivity. apply perm_swap.
  - now transitivity (dropna v').
Qed.

(** The quantile does not depend on the order of the values. *)
Lemma percentile_perm (xs ys : list Q) (p : Q) :
  Permutation xs ys -> same (percentile xs p) (percentile ys p).
Proof.
  intros Hp. pose proof (Permutation_length Hp) as Hlen.
  destruct xs as [|x xs], ys as [|y ys]; try discriminate; [exact I|].
  unfold percentile, same. rewrite Hlen.
  set (h := p * inject_Z (Z.of_nat (length (y :: ys)) - 1)).
  assert (Hs : Permutation (sort (x :: xs)) (sort (y :: ys))).
  { now rewrite !sort_perm. }
  unfold at_position, lerp. cbv zeta. rewrite !sort_length, Hlen.
  rewrite (sorted_perm_nth _ _ (sort_sorted _) (sort_sorted _) Hs
             (Z.to_nat (Qfloor h))).
  rewrite (sorted_perm_nth _ _ (sort_sorted _) (sort_sorted _) Hs
             (Nat.min (Z.to_nat (Qfloor h) + 1) (length (y :: ys) - 1))).
  reflexivity.
Qed.

Lemma filter_perm {A : Type} (f : A -> bool) (l l' : list A) :
  Permutation l l' -> Permutation (filter f l) (filter f l').
Proof.
  induction 1 as [|x l l' _ IH|x y l|l l' l'' _ IH1 _ IH2]; simpl.
  - constructor.
  - destruct (f x); [now constructor | exact IH].
  - destruct (f x), (f y); try reflexivity. apply perm_swap.
  - now transitivity (filter f l').
Qed.

Lemma map_snd_combine_same {A B : Type} (l : list A) (r : list B) :
  length l = length r -> map snd (combine l r) = r.
Proof.
  revert l. induction r as [|y r IH]; intros [|x l] H;
    simpl in *; try reflexivity; try discriminate.
  injection H as H. now rewrite IH.
Qed.

(** X6.  The order of the rows does not matter: when the rows of the
    selected column (label and value) of one table are a rearrangement of
    those of another, both scans get the same quartiles and the same
    fence, flag the same rows (as a rearrangement) and return the same
    count. *)
Theorem flags_do_not_depend_on_row_order
    (e1 e2 : Env) (c1 c2 : string) (k1 k2 : column) (v1 v2 : list float) :
  aligned (df e1) -> aligned (df e2) ->
  lookup c1 (columns (df e1)) = Some k1 -> numeric k1 = Some v1 ->
  lookup c2 (columns (df e2)) = Some k2 -> numeric k2 = Some v2 ->
  Permutation (combine (index (df e1)) v1) (combine (index (df e2)) v2) ->
  exists e1' e2',
    iteration c1 e1 = (Ok tt, e1') /\
    iteration c2 e2 = (Ok tt, e2') /\
    same (Q1 e1') (Q1 e2') /\ same (Q3 e1') (Q3 e2') /\
    same (lower_bound e1') (lower_bound e2') /\
    same (upper_bound e1') (upper_bound e2') /\
    Permutation (rows (outliers e1')) (rows (outliers e2')) /\
    len (outliers e1') = len (outliers e2').
Proof.
  intros Ha1 Ha2 Hl1 Hn1 Hl2 Hn2 Hp.
  pose proof (aligned_length _ _ _ _ Ha1 Hl1 Hn1) as Hlen1.
  pose proof (aligned_length _ _ _ _ Ha2 Hl2 Hn2) as Hlen2.
  assert (Hv : Permutation v1 v2).
  { rewrite <- (map_snd_combine_same _ _ Hlen1),
            <- (map_snd_combine_same _ _ Hlen2).
    now apply Permutation_map. }
  pose proof (dropna_perm _ _ Hv) as Hd.
  pose proof (percentile_perm _ _ (1 # 4) Hd) as Hq1.
  pose proof (percentile_perm _ _ (3 # 4) Hd) as Hq3.
  destruct (fence_same _ _ _ _ Hq1 Hq3) as [Hlo Hhi].
  exists (after e1 c1 k1 v1), (after e2 c2 k2 v2).
  split; [now apply iteration_numeric|].
  split; [now apply iteration_numeric|].
  do 4 (split; [assumption|]).
  assert (Hrows : Permutation (rows (outliers (after e1 c1 k1 v1)))
                              (rows (outliers (after e2 c2 k2 v2)))).
  { rewrite (rows_after e1 c1 k1 v1 Hn1), (rows_after e2 c2 k2 v2 Hn2).
    rewrite (filter_ext _
               (fun r => outside (lower_bound (after e2 c2 k2 v2))
                                 (upper_bound (after e2 c2 k2 v2)) (snd r))).
    - now apply filter_perm.
    - intros r. now apply outside_same. }
  split; [exact Hrows|].
  rewrite (len_after e1 c1 k1 v1 Hn1 Hlen1), (len_after e2 c2 k2 v2 Hn2 Hlen2).
  now apply Permutation_length.
Qed.

Lemma flags_do_not_depend_on_row_order_witness :
  exists e1' e2',
    iteration "x" (loaded with_gap) = (Ok tt, e1') /\
    iteration "x"
      (loaded (mkDataFrame [1; 0; 2; 3; 4]%nat
                 [("x"%string, Float64 [NaN; Fin 1; Fin 2; Fin 3; Fin 50])]))
    = (Ok tt, e2') /\
    len (outliers e1') = len (outliers e2').
Proof.
  destruct (flags_do_not_depend_on_row_order
              (loaded with_gap)
              (loaded (mkDataFrame [1; 0; 2; 3; 4]%nat
                 [("x"%string, Float64 [NaN; Fin 1; Fin 2; Fin 3; Fin 50])]))
              "x" "x"
              (Float64 [Fin 1; NaN; Fin 2; Fin 3; Fin 50])
              (Float64 [NaN; Fin 1; Fin 2; Fin 3; Fin 50])
              [Fin 1; NaN; Fin 2; Fin 3; Fin 50]
              [NaN; Fin 1; Fin 2; Fin 3; Fin 50])
    as (e1' & e2' & H1 & H2 & _ & _ & _ & _ & _ & Hlen).
  - repeat constructor.
  - repeat constructor.
  - reflexivity.
  - reflexivity.
  - reflexivity.
  - reflexivity.
  - apply perm_swap.
  - exists e1', e2'. repeat split; assumption.
Defined.

(* ================================================================== *)
(** ** The selections of Sections 5 and 6 *)
(* ================================================================== *)

(** With unique names, a name kept by a dtype filter looks up a column
    that passes the filter. *)
Lemma lookup_filtered (keep : column -> bool) (cs : list (string * column))
    (c : string) :
  NoDup (map fst cs) ->
  In c (map fst (filter (fun nc => keep (snd nc)) cs)) ->
  exists k, lookup c cs = Some k /\ keep k = true.
Proof.
  induction cs as [|[n k0] cs IH]; simpl; [tauto|].
  intros Hnd Hin. inversion Hnd as [|? ? Hn Hnd']; subst.
  destruct (String.eqb n c) eqn:E.
  - apply String.eqb_eq in E. subst n.
    destruct (keep k0) eqn:Hk; [eauto|].
    exfalso. apply Hn. apply in_map_iff in Hin as ([n k] & Hf & Hi).
    apply filter_In in Hi as [Hi _]. simpl in Hf. subst.
    apply in_map_iff. now exists (c, k).
  - apply String.eqb_neq in E.
    destruct (keep k0); simpl in Hin; [destruct Hin; [congruence|]|];
      auto.
Qed.

Lemma filtered_names_nodup (keep : column -> bool)
    (cs : list (string * column)) :
  NoDup (map fst cs) ->
  NoDup (map fst (filter (fun nc => keep (snd nc)) cs)).
Proof.
  induction cs as [|[n k] cs IH]; simpl; intros Hnd; [constructor|].
  inversion Hnd as [|? ? Hn Hnd']; subst.
  destruct (keep k); simpl; [|auto].
  constructor; [|auto].
  intros Hin. apply Hn. apply in_map_iff in Hin as ([n' k'] & Hf & Hi).
  apply filter_In in Hi as [Hi _]. simpl in Hf. subst.
  apply in_map_iff. now exists (n, k').
Qed.

(** X8.  On a table with unique column names the two selections never
    overlap: no column is both in [numerical_cols] and in
    [categorical_cols]; each list is free of repetitions, and [df[col]]
    succeeds for every selected name, giving an int64 or float64 column
    for the first list and an object column for the second. *)
Theorem selections_do_not_overlap (d : DataFrame) :
  NoDup (column_names d) ->
  (forall c, In c (column_names (select_dtypes d)) ->
             ~ In c (categorical_cols d)) /\
  NoDup (column_names (select_dtypes d)) /\
  NoDup (categorical_cols d) /\
  (forall c, In c (column_names (select_dtypes d)) ->
     exists k, getitem d c = Ok (mkSeries (index d) k) /\
               is_numeric k = true) /\
  (forall c, In c (categorical_cols d) ->
     exists k, getitem d c = Ok (mkSeries (index d) k) /\
               is_categorical k = true).
Proof.
  intros Hnd. unfold categorical_cols, column_names, select_dtypes,
    select_dtypes_categorical in *. cbn [columns] in *.
  split; [|split; [|split; [|split]]].
  - intros c Hn Hc.
    destruct (lookup_filtered is_numeric _ c Hnd Hn) as (k & Hl & Hk).
    destruct (lookup_filtered is_categorical _ c Hnd Hc) as (k' & Hl' & Hk').
    rewrite Hl in Hl'. inversion Hl'; subst k'.
    destruct k; discriminate.
  - now apply filtered_names_nodup.
  - now apply filtered_names_nodup.
  - intros c Hn.
    destruct (lookup_filtered is_numeric _ c Hnd Hn) as (k & Hl & Hk).
    exists k. unfold getitem. now rewrite Hl.
  - intros c Hc.
    destruct (lookup_filtered is_categorical _ c Hnd Hc) as (k & Hl & Hk).
    exists k. unfold getitem. now rewrite Hl.
Qed.

Lemma selections_do_not_overlap_witness :
  ~ In "sepal_length"%string (categorical_cols mixed) /\
  NoDup (categorical_cols mixed).
Proof.
  destruct (selections_do_not_overlap mixed) as (Hd & _ & Hc & _).
  - repeat constructor; simpl; intuition discriminate.
  - split; [|exact Hc]. apply Hd. left. reflexivity.
Defined.

(* ================================================================== *)
(** ** The interactive plots of Section 10 *)
(* ================================================================== *)

Lemma last_item_some (l : list string) :
  l <> [] -> last_item l = Some (last l EmptyString).
Proof. destruct l; [congruence | reflexivity]. Qed.

(** X9.  Run after the two selections on a table with unique column
    names, the cell of Section 10 never indexes out of range.  With no
    numeric column it shows nothing, with one it shows the box plot of
    that column, with two or more the scatter plot of the first two
    (two different columns) and then the box plot of the first.  The
    scatter plot is coloured exactly when the table has a column named
    target or a categorical column, and then by the last column of the
    table, whatever that column is. *)
Theorem interactive_plots_after_selection (d : DataFrame) :
  NoDup (column_names d) ->
  exists figs,
    interactive_plots d (column_names (select_dtypes d)) (categorical_cols d)
    = Some figs /\
    match column_names (select_dtypes d) with
    | [] => figs = []
    | [x] => figs = [Box x]
    | x :: y :: _ =>
        x <> y /\
        figs = [Scatter x y
                  (if (existsb (String.eqb "target") (column_names d)
                       || (0 <? length (categorical_cols d))%nat)%bool
                   then Some (last (column_names d) EmptyString)
                   else None);
                Box x]
    end.
Proof.
  intros Hnd.
  pose proof (filtered_names_nodup is_numeric (columns d) Hnd) as Hnn.
  assert (Hsub : forall c, In c (column_names (select_dtypes d)) ->
                           In c (column_names d)).
  { intros c Hc. unfold column_names, select_dtypes in *. cbn [columns] in *.
    apply in_map_iff in Hc as (nc & Hf & Hi). apply filter_In in Hi as [Hi _].
    apply in_map_iff. now exists nc. }
  change (map fst (filter (fun nc => is_numeric (snd nc)) (columns d)))
    with (column_names (select_dtypes d)) in Hnn.
  unfold interactive_plots.
  destruct (column_names (select_dtypes d)) as [|x [|y rest]] eqn:E.
  - eexists. split; reflexivity.
  - eexists. split; reflexivity.
  - assert (Hne : column_names d <> []).
    { intros H0. specialize (Hsub x (or_introl eq_refl)).
      rewrite H0 in Hsub. contradiction. }
    remember (existsb (String.eqb "target") (column_names d)
              || (0 <? length (categorical_cols d))%nat)%bool as coloured.
    cbn [length Nat.leb Nat.ltb item nth_error].
    rewrite (last_item_some _ Hne).
    exists [Scatter x y (if coloured
                         then Some (last (column_names d) EmptyString)
                         else None); Box x].
    split; [destruct coloured; reflexivity|].
    split; [|reflexivity].
    inversion Hnn as [|? ? Hx _]; subst. intros ->. apply Hx. now left.
Qed.

Lemma interactive_plots_after_selection_witness :
  interactive_plots sample9 (column_names (select_dtypes sample9))
                    (categorical_cols sample9)
  = Some [Scatter "x" "y" None; Box "x"].
Proof.
  destruct (interactive_plots_after_selection sample9) as (figs & Hrun & Hf).
  - repeat constructor; simpl; intuition discriminate.
  - rewrite Hrun. f_equal. apply (proj2 Hf).
Defined.

(** X10.  Whatever the three globals hold, the cell of Section 10 raises
    IndexError in one situation only: at least two names in
    [numerical_cols], a non-empty [categorical_cols], and a table without
    any column (so that [df.columns[-1]] has nothing to return).  The
    indices 0 and 1 into [numerical_cols] are always guarded by the
    length tests. *)
Theorem interactive_plots_index_error
    (d : DataFrame) (nums cats : list string) :
  interactive_plots d nums cats = None <->
  (2 <= length nums)%nat /\ cats <> [] /\ columns d = [].
Proof.
  unfold interactive_plots, item, column_names.
  destruct nums as [|x [|y rest]]; cbn [length Nat.leb Nat.ltb nth_error].
  - split; [discriminate | intros [H _]; lia].
  - split; [discriminate | intros [H _]; simpl in H; lia].
  - destruct (columns d) as [|nc cs] eqn:Hc.
    + cbn [map existsb orb last_item].
      destruct cats as [|c cats]; cbn [length Nat.ltb Nat.leb].
      * split; [discriminate | intros (_ & H & _); congruence].
      * split; [intros _|reflexivity].
        split; [simpl; lia|]. split; [discriminate | reflexivity].
    + rewrite last_item_some by discriminate.
      match goal with
      | |- context [if ?coloured then _ else _] => destruct coloured
      end;
        (split; [discriminate | intros (_ & _ & H); discriminate]).
Qed.

Lemma interactive_plots_index_error_witness :
  interactive_plots (mkDataFrame [] []) ["a"; "b"]%string ["c"%string] = None.
Proof.
  apply (interactive_plots_index_error
           (mkDataFrame [] []) ["a"; "b"]%string ["c"%string]).
  split; [simpl; lia|]. split; [discriminate | reflexivity].
Defined.

(* ================================================================== *)
(** ** The missing-value counts of Section 4 *)
(* ================================================================== *)

Lemma isnull_numeric (k : column) (v : list float) :
  numeric k = Some v -> isnull k = map isnan v.
Proof.
  destruct k as [z|f|[|o os]]; simpl; intros H; inversion H; subst;
    [|reflexivity|reflexivity].
  rewrite map_map. reflexivity.
Qed.

Lemma missing_and_present (v : list float) :
  (count_true (map isnan v) + length (dropna v) = length v)%nat.
Proof.
  unfold count_true. induction v as [|[|x] v IH]; simpl; lia.
Qed.

Lemma no_missing_all_present (v : list float) :
  count_true (map isnan v) = 0%nat -> map Fin (dropna v) = v.
Proof.
  unfold count_true. induction v as [|[|x] v IH]; simpl; intros H;
    [reflexivity | discriminate | now rewrite IH].
Qed.

(** X11.  What Section 4 prints and what the scan uses add up: for a
    numeric column, the count of missing values reported by
    [df.isnull().sum()] plus the number of values the quartiles are
    computed from is the number of rows; the number of outliers is at
    most the number of rows minus that count; and when the count is 0
    the quartiles are computed from every row. *)
Theorem missing_count_and_scan
    (e : Env) (c : string) (k : column) (v : list float) :
  aligned (df e) ->
  lookup c (columns (df e)) = Some k ->
  numeric k = Some v ->
  exists e' m,
    iteration c e = (Ok tt, e') /\
    In (c, m) (missing_values (df e)) /\
    (m + length (dropna v) = length (index (df e)))%nat /\
    (len (outliers e') + m <= length (index (df e)))%nat /\
    (m = 0%nat -> map Fin (dropna v) = v).
Proof.
  intros Ha Hl Hn.
  pose proof (aligned_length _ _ _ _ Ha Hl Hn) as Hlen.
  exists (after e c k v), (count_true (isnull k)).
  split; [now apply iteration_numeric|].
  rewrite (isnull_numeric k v Hn).
  pose proof (missing_and_present v) as Hsum.
  split; [|split; [lia|split]].
  - unfold missing_values. apply in_map_iff. exists (c, k).
    cbn [fst snd]. rewrite (isnull_numeric k v Hn).
    split; [reflexivity | now apply lookup_in].
  - rewrite (len_after e c k v Hn Hlen), (rows_after e c k v Hn).
    rewrite (count_present
               (outside (lower_bound (after e c k v))
                        (upper_bound (after e c k v)))) by
      (trivial; apply outside_nan).
    pose proof (filter_length_le
                  (fun x => outside (lower_bound (after e c k v))
                                    (upper_bound (after e c k v)) (Fin x))
                  (dropna v)).
    lia.
  - apply no_missing_all_present.
Qed.

Lemma missing_count_and_scan_witness :
  exists e',
    iteration "x" (loaded with_gap) = (Ok tt, e') /\
    In ("x"%string, 1%nat) (missing_values with_gap) /\
    (len (outliers e') + 1 <= 5)%nat.
Proof.
  destruct (missing_count_and_scan (loaded with_gap) "x"
              (Float64 [Fin 1; NaN; Fin 2; Fin 3; Fin 50])
              [Fin 1; NaN; Fin 2; Fin 3; Fin 50])
    as (e' & m & Hrun & Hin & Hsum & Hle & _).
  - repeat constructor.
  - reflexivity.
  - reflexivity.
  - assert (Hm : m = 1%nat) by (simpl in Hsum; lia). subst m.
    exists e'. repeat split; assumption.
Defined.

(* ================================================================== *)
(** ** Columns the notebook never reads *)
(* ================================================================== *)

Lemma lookup_in_selection (keep : column -> bool)
    (cs : list (string * column)) (c : string) (k : column) :
  lookup c cs = Some k -> keep k = true ->
  lookup c (filter (fun nc => keep (snd nc)) cs) = Some k.
Proof.
  intros Hl Hk. induction cs as [|[n k0] cs IH]; simpl in *; [discriminate|].
  destruct (String.eqb n c) eqn:E.
  - inversion Hl; subst k0. rewrite Hk. simpl. now rewrite E.
  - destruct (keep k0); simpl; [rewrite E|]; auto.
Qed.

(** The scan of a selected name reads the index and that column only. *)
Lemma scan_of_selected (d1 d2 : DataFrame) (c : string) :
  NoDup (column_names d1) -> NoDup (column_names d2) ->
  select_dtypes d1 = select_dtypes d2 ->
  In c (column_names (select_dtypes d1)) ->
  exists k v,
    lookup c (columns d1) = Some k /\ lookup c (columns d2) = Some k /\
    numeric k = Some v.
Proof.
  intros Hnd1 Hnd2 Hsel Hin.
  assert (Hin2 : In c (column_names (select_dtypes d2))) by now rewrite <- Hsel.
  destruct (lookup_filtered is_numeric _ c Hnd1 Hin) as (k1 & Hl1 & Hk1).
  destruct (lookup_filtered is_numeric _ c Hnd2 Hin2) as (k2 & Hl2 & Hk2).
  pose proof (lookup_in_selection is_numeric _ c k1 Hl1 Hk1) as Hs1.
  pose proof (lookup_in_selection is_numeric _ c k2 Hl2 Hk2) as Hs2.
  change (filter (fun nc => is_numeric (snd nc)) (columns d1))
    with (columns (select_dtypes d1)) in Hs1.
  change (filter (fun nc => is_numeric (snd nc)) (columns d2))
    with (columns (select_dtypes d2)) in Hs2.
  rewrite Hsel, Hs2 in Hs1. inversion Hs1; subst k2.
  destruct (numeric_of_is_numeric k1 Hk1) as [v Hv].
  now exists k1, v.
Qed.

(** X12.  The columns that are neither int64 nor float64 have no effect
    on the outlier report: two tables with unique column names and the
    same numeric part (same rows, same int64 and float64 columns) make
    the notebook print the same lines and leave the same list of names;
    whatever the object columns hold, they are never read. *)
Theorem other_columns_do_not_affect_the_report (e1 e2 : Env) :
  wf (df e1) -> wf (df e2) ->
  select_dtypes (df e1) = select_dtypes (df e2) ->
  exists e1' e2' out,
    notebook e1 = (Ok tt, e1') /\
    notebook e2 = (Ok tt, e2') /\
    stdout e1' = stdout e1 ++ out /\
    stdout e2' = stdout e2 ++ out /\
    numerical_cols e1' = numerical_cols e2' /\
    headers out = column_names (select_dtypes (df e1)).
Proof.
  intros [Hnd1 _] [Hnd2 _] Hsel.
  set (names := column_names (select_dtypes (df e1))).
  assert (Hnames2 : column_names (select_dtypes (df e2)) = names)
    by (unfold names; now rewrite Hsel).
  assert (Hboth : forall c, In c names ->
            exists k v, lookup c (columns (df e1)) = Some k /\
                        lookup c (columns (df e2)) = Some k /\
                        numeric k = Some v).
  { intros c Hc. now apply scan_of_selected. }
  assert (Hidx : index (df e1) = index (df e2)).
  { change (index (select_dtypes (df e1)) = index (select_dtypes (df e2))).
    now rewrite Hsel. }
  destruct (for_each_reports names (set_numerical_cols names e1))
    as (e1' & Hrun1 & _ & Hnc1 & Hout1 & _).
  { apply Forall_forall. intros c Hc.
    destruct (Hboth c Hc) as (k & v & H1 & _ & Hn). now exists k, v. }
  destruct (for_each_reports names (set_numerical_cols names e2))
    as (e2' & Hrun2 & _ & Hnc2 & Hout2 & _).
  { apply Forall_forall. intros c Hc.
    destruct (Hboth c Hc) as (k & v & _ & H2 & Hn). now exists k, v. }
  cbn [df stdout numerical_cols set_numerical_cols] in *.
  assert (Hlines : flat_map (scan_lines (df e2)) names
                   = flat_map (scan_lines (df e1)) names).
  { clear - Hboth Hidx. induction names as [|c names IH]; [reflexivity|].
    cbn [flat_map].
    destruct (Hboth c (or_introl eq_refl)) as (k & v & H1 & H2 & Hn).
    rewrite (scan_lines_numeric e1 c k v H1 Hn),
            (scan_lines_numeric e2 c k v H2 Hn).
    destruct (report_after e2 e1 c k v (eq_sym Hidx)) as [_ Hp].
    rewrite Hp, IH; [reflexivity|]. intros c' Hc'. apply Hboth. now right. }
  exists e1', e2', (flat_map (scan_lines (df e1)) names).
  unfold notebook, select_numerical, detect_outliers, bind, read, assign.
  cbn [numerical_cols set_numerical_cols]. fold names.
  rewrite Hnames2, Hrun1, Hrun2.
  split; [reflexivity|]. split; [reflexivity|].
  split; [exact Hout1|]. split; [now rewrite Hout2, Hlines|].
  split; [now rewrite Hnc1, Hnc2|].
  clear - Hboth. induction names as [|c names IH]; [reflexivity|].
  cbn [flat_map]. unfold headers in *. rewrite flat_map_app, IH.
  - destruct (Hboth c (or_introl eq_refl)) as (k & v & H1 & _ & Hn).
    rewrite (scan_lines_numeric e1 c k v H1 Hn).
    fold (headers (printed e1 c k v)). now rewrite headers_printed.
  - intros c' Hc'. apply Hboth. now right.
Qed.

Lemma other_columns_do_not_affect_the_report_witness :
  exists out,
    stdout (snd (notebook (loaded mixed))) = out /\
    stdout (snd (notebook
                   (loaded (mkDataFrame (seq 0 2)
                      [("sepal_length"%string,
                        Float64 [Fin (51 # 10); Fin (63 # 10)]);
                       ("note"%string, Object ["a"; "b"]%string)]))))
    = out.
Proof.
  destruct (other_columns_do_not_affect_the_report
              (loaded mixed)
              (loaded (mkDataFrame (seq 0 2)
                 [("sepal_length"%string,
                   Float64 [Fin (51 # 10); Fin (63 # 10)]);
                  ("note"%string, Object ["a"; "b"]%string)])))
    as (e1' & e2' & out & H1 & H2 & Ho1 & Ho2 & _).
  - split; repeat constructor; simpl; intuition discriminate.
  - split; repeat constructor; simpl; intuition discriminate.
  - reflexivity.
  - exists out. rewrite H1, H2. cbn [snd]. rewrite Ho1, Ho2.
    split; reflexivity.
Defined.

(* ================================================================== *)
(** ** The scan in binary64 *)
(* ================================================================== *)

(** The statements below are about [F64]: the loop body with float64 as
    IEEE 754 binary64, rounding, infinities and signed zeros included. *)
Section Binary64.
Import F64.

(** *** Conversions, literals and wrap-around *)

Lemma of_int_rounds :
  of_int 0 = S754_zero false /\
  of_int 1 = f1_0 /\
  of_int 5 = S754_finite false 5629499534213120 (-50) /\
  of_int (-1) = S754_finite true 4503599627370496 (-52) /\
  of_int (2 ^ 53 + 1) = S754_finite false 4503599627370496 1 /\
  of_int (2 ^ 53 + 3) = S754_finite false 4503599627370498 1 /\
  of_int (2 ^ 63 - 1) = S754_finite false 4503599627370496 11 /\
  of_int (- 2 ^ 63) = S754_finite true 4503599627370496 11.
Proof. by_running. Qed.

Lemma literal_values :
  fadd f0_25 f0_25 = f0_5 /\ fadd f0_5 f0_25 = f0_75 /\
  fadd f0_5 f0_5 = f1_0 /\ fadd f1_0 f0_5 = f1_5 /\
  fsub f1_0 f0_75 = f0_25 /\ fmul f0_5 f0_5 = f0_25 /\
  fsub f0_5 f0_5 = f0_0.
Proof. by_running. Qed.

Lemma wrap64_wraps :
  wrap64 5 = 5%Z /\ wrap64 (-5) = (-5)%Z /\
  wrap64 (2 ^ 63 - 1) = (2 ^ 63 - 1)%Z /\
  wrap64 (2 ^ 63) = (- 2 ^ 63)%Z /\
  wrap64 (2 ^ 63 - 1 - - 2 ^ 63) = (-1)%Z.
Proof. by_running. Qed.

Lemma head_keeps_five_rows :
  head (mkSeries [0; 1; 2; 3; 4; 5; 6]%nat (Int64 [10; 11; 12; 13; 14; 15; 16]%Z))
  = mkSeries [0; 1; 2; 3; 4]%nat (Int64 [10; 11; 12; 13; 14]%Z).
Proof. reflexivity. Qed.

Lemma quarter_cases (r : Z) : In (quarter r) [f0_0; f0_25; f0_5; f0_75].
Proof.
  unfold quarter.
  destruct (r =? 0)%Z; [simpl; tauto|].
  destruct (r =? 1)%Z; [simpl; tauto|].
  destruct (r =? 2)%Z; simpl; tauto.
Qed.

(** *** Running one iteration *)

Lemma lookup_select_col (m : list bool) (c : string) cs :
  lookup c (map (fun nc => (fst nc, select_col m (snd nc))) cs)
  = option_map (select_col m) (lookup c cs).
Proof.
  induction cs as [|[n k] cs IH]; simpl; [reflexivity|].
  destruct (String.eqb n c); [reflexivity | exact IH].
Qed.

Lemma body_numeric (e : Env) (c : string) (k : column) (v : list float) :
  lookup c (columns (df e)) = Some k ->
  as_float k = Some v ->
  iteration c e = (Ok tt, after e c k v).
Proof.
  intros Hl Hn.
  unfold iteration, df_col, bind, read, lift, assign, print, ret,
    getitem, quantile, lt_scalar, gt_scalar, getitem_mask, bor.
  cbn [df col Q1 Q3 IQR lower_bound upper_bound outliers stdout
       set_col set_Q1 set_Q3 set_IQR set_lower_bound set_upper_bound
       set_outliers set_stdout numerical_cols columns index
       s_values s_index b_values b_index].
  rewrite Hl. cbn [s_values s_index]. rewrite Hn.
  cbn [b_values b_index columns index].
  rewrite lookup_select_col, Hl. cbn [option_map].
  rewrite zip_or_map.
  unfold after. cbv zeta.
  set (o := mkSeries _ _).
  destruct (0 <? len o)%nat;
    cbn [df col Q1 Q3 IQR lower_bound upper_bound outliers stdout
         numerical_cols set_stdout];
    rewrite <- !app_assoc; reflexivity.
Qed.

Lemma body_absent (e : Env) (c : string) :
  lookup c (columns (df e)) = None ->
  iteration c e = (Raise (KeyError c), set_col c e).
Proof.
  intros Hl.
  unfold iteration, df_col, bind, read, lift, assign, getitem.
  cbn [df col set_col]. rewrite Hl. reflexivity.
Qed.

Lemma body_strings (e : Env) (c : string) (k : column) :
  lookup c (columns (df e)) = Some k ->
  as_float k = None ->
  iteration c e = (Raise TypeError, set_col c e).
Proof.
  intros Hl Hn.
  unfold iteration, df_col, bind, read, lift, assign, getitem, quantile.
  cbn [df col set_col]. rewrite Hl. cbn [s_values]. rewrite Hn. reflexivity.
Qed.


(** *** The order of float64 *)

Lemma SFcompare_antisym (a b : float) :
  SFcompare b a = option_map CompOpp (SFcompare a b).
Proof.
  destruct a as [sa|sa| |sa ma ea], b as [sb|sb| |sb mb eb];
    try destruct sa; try destruct sb; try reflexivity;
    cbn [SFcompare option_map]; f_equal;
    rewrite (Z.compare_antisym ea eb);
    destruct (ea ?= eb)%Z; cbn [CompOpp]; try reflexivity;
    change (Pos.compare_cont Eq mb ma) with (Pos.compare mb ma);
    change (Pos.compare_cont Eq ma mb) with (Pos.compare ma mb);
    rewrite (Pos.compare_antisym ma mb);
    destruct (ma ?= mb)%positive; reflexivity.
Qed.

Lemma SFcompare_present (a b : float) :
  present a = true -> present b = true -> exists o, SFcompare a b = Some o.
Proof.
  destruct a as [sa|sa| |sa ma ea], b as [sb|sb| |sb mb eb];
    try discriminate; intros _ _; cbn [SFcompare]; eauto.
Qed.

Lemma SFleb_total (a b : float) :
  present a = true -> present b = true ->
  SFleb a b = false -> SFleb b a = true.
Proof.
  intros Ha Hb. unfold SFleb. rewrite (SFcompare_antisym a b).
  destruct (SFcompare_present a b Ha Hb) as [o ->].
  destruct o; cbn; congruence.
Qed.

Lemma SFcompare_refl (a : float) :
  present a = true -> SFcompare a a = Some Eq.
Proof.
  destruct a as [s|s| |s m e]; try discriminate; intros _;
    destruct s; cbn [SFcompare]; try reflexivity;
    rewrite Z.compare_refl;
    change (Pos.compare_cont Eq m m) with (Pos.compare m m);
    now rewrite Pos.compare_refl.
Qed.

Lemma SFleb_trans (a b c : float) :
  SFleb a b = true -> SFleb b c = true -> SFleb a c = true.
Proof.
  unfold SFleb.
  destruct a as [sa|sa| |sa ma ea], b as [sb|sb| |sb mb eb],
           c as [sc|sc| |sc mc ec];
    try destruct sa; try destruct sb; try destruct sc;
    cbn [SFcompare]; try reflexivity; try discriminate;
    change (Pos.compare_cont Eq ma mb) with (Pos.compare ma mb);
    change (Pos.compare_cont Eq mb mc) with (Pos.compare mb mc);
    change (Pos.compare_cont Eq ma mc) with (Pos.compare ma mc);
    destruct (Z.compare_spec ea eb), (Z.compare_spec eb ec),
             (Z.compare_spec ea ec);
    cbn [CompOpp]; try reflexivity; try discriminate; try lia;
    destruct (Pos.compare_spec ma mb), (Pos.compare_spec mb mc),
             (Pos.compare_spec ma mc);
    cbn [CompOpp]; try reflexivity; try discriminate; try lia.
Qed.


(** *** Insertion sort *)

Lemma insert_permutation {A : Type} (leb : A -> A -> bool) (x : A)
    (l : list A) :
  Permutation (insert leb x l) (x :: l).
Proof.
  induction l as [|y l IH]; simpl; [reflexivity|].
  destruct (leb x y); [reflexivity|].
  rewrite IH. apply perm_swap.
Qed.

Lemma sort_permutation {A : Type} (leb : A -> A -> bool) (l : list A) :
  Permutation (sort leb l) l.
Proof.
  induction l as [|x l IH]; simpl; [reflexivity|].
  rewrite insert_permutation. now constructor.
Qed.

Section Sorted.

Variables (A : Type) (leb : A -> A -> bool) (P : A -> Prop).
Hypothesis total :
  forall a b, P a -> P b -> leb a b = false -> leb b a = true.
Hypothesis trans :
  forall a b c, leb a b = true -> leb b c = true -> leb a c = true.

Lemma insert_ascending (x : A) (l : list A) :
  P x -> Forall P l ->
  StronglySorted (fun a b => leb a b = true) l ->
  StronglySorted (fun a b => leb a b = true) (insert leb x l).
Proof.
  intros Hx Hl Hs. induction Hs as [|y l Hs IH Hy]; simpl.
  - repeat constructor.
  - inversion Hl as [|? ? Py Pl]; subst.
    destruct (leb x y) eqn:E.
    + constructor; [now constructor|].
      constructor; [exact E|].
      eapply Forall_impl; [|exact Hy]. intros z Hz. now apply (trans x y z).
    + constructor; [now apply IH|].
      apply (Permutation_Forall (x := x :: l)).
      * symmetry. apply insert_permutation.
      * constructor; [now apply total | exact Hy].
Qed.

Lemma sort_ascending (l : list A) :
  Forall P l -> StronglySorted (fun a b => leb a b = true) (sort leb l).
Proof.
  induction 1 as [|x l Hx Hl IH]; simpl; [constructor|].
  apply insert_ascending; trivial.
  apply (Permutation_Forall (x := l)); [|exact Hl].
  symmetry. apply sort_permutation.
Qed.

End Sorted.

Lemma dropna_present (v : list float) : dropna v = filter present v.
Proof. apply filter_ext. now intros []. Qed.

Lemma sort_floats_ascending (v : list float) :
  StronglySorted (fun a b => SFleb a b = true) (sort fle (filter present v)).
Proof.
  apply (sort_ascending float fle (fun y => present y = true)).
  - exact SFleb_total.
  - exact SFleb_trans.
  - apply Forall_forall. intros y Hy. now apply filter_In in Hy.
Qed.

Lemma sort_ints_ascending (z : list Z) :
  StronglySorted (fun a b => (a <=? b)%Z = true) (sort Z.leb z).
Proof.
  apply (sort_ascending Z Z.leb (fun _ => True)).
  - intros a b _ _ H. apply Z.leb_le. apply Z.leb_gt in H. lia.
  - intros a b c H1 H2. apply Z.leb_le. apply Z.leb_le in H1, H2. lia.
  - apply Forall_forall. trivial.
Qed.


(** *** The rows an iteration keeps *)

Lemma select_rows {A : Type} (f : A -> bool) (idx : list nat) (v : list A) :
  length idx = length v ->
  select (map f v) idx
  = map fst (filter (fun r => f (snd r)) (combine idx v)) /\
  select (map f v) v
  = map snd (filter (fun r => f (snd r)) (combine idx v)).
Proof.
  revert idx. induction v as [|y v IH]; intros [|i idx] H;
    simpl in *; try discriminate; [split; reflexivity|].
  injection H as H. destruct (IH idx H) as [H1 H2].
  destruct (f y); simpl; rewrite H1, H2; split; reflexivity.
Qed.

Lemma SFleb_not_ltb (a b : float) : SFleb a b = true -> SFltb b a = false.
Proof.
  unfold SFleb, SFltb. rewrite (SFcompare_antisym a b).
  destruct (SFcompare a b) as [[]|]; cbn; congruence.
Qed.

Lemma scan_of_body (e : Env) (c : string) (k : column) (v : list float) :
  lookup c (columns (df e)) = Some k ->
  as_float k = Some v ->
  scan (df e) c
  = Ok (len (outliers (after e c k v)), outliers (after e c k v)).
Proof.
  intros Hl Hn. unfold scan.
  rewrite (body_numeric (loaded (df e)) c k v Hl Hn). reflexivity.
Qed.

Lemma at_quarters_explicit {A : Type} (interp : A -> A -> float -> float)
    (s : list A) (q : Z) (d : A) :
  (0 <= q <= 4)%Z ->
  at_quarters interp s q
  = match s with
    | [] => S754_nan
    | _ :: _ =>
        interp
          (nth (Z.to_nat (q * (Z.of_nat (length s) - 1) / 4)) s d)
          (nth (Nat.min (Z.to_nat (q * (Z.of_nat (length s) - 1) / 4) + 1)
                        (length s - 1)) s d)
          (quarter ((q * (Z.of_nat (length s) - 1)) mod 4))
    end.
Proof.
  intros Hq. destruct s as [|x s]; [reflexivity|].
  unfold at_quarters. cbv zeta.
  set (l := x :: s).
  assert (Hn : (Z.of_nat (length l) - 1 = Z.of_nat (length s))%Z)
    by (unfold l; cbn [length]; lia).
  assert (Hi : (Z.to_nat (q * (Z.of_nat (length l) - 1) / 4)
                < length l)%nat).
  { rewrite Hn. unfold l. cbn [length].
    assert (0 <= q * Z.of_nat (length s) / 4 <= Z.of_nat (length s))%Z.
    { split; [apply Z.div_pos; nia|].
      apply Z.div_le_upper_bound; nia. }
    lia. }
  assert (Hj : (Nat.min (Z.to_nat (q * (Z.of_nat (length l) - 1) / 4) + 1)
                        (length l - 1) < length l)%nat)
    by (unfold l in *; cbn [length] in *; lia).
  now rewrite (nth_indep l x d Hi), (nth_indep l x d Hj).
Qed.

(** C1, amended.  For a float64 and for an int64 column of the table, one
    pass of the body leaves in Q1 and Q3 numpy's float64 interpolation at
    the positions 0.25 (n - 1) and 0.75 (n - 1) of the n non-missing
    values in ascending order: with [a] and [b] the order statistics
    around the position and [t] its fractional part, [a + (b - a) * t],
    or [b - (b - a) * (1 - t)] when [t >= 0.5] (on int64 the difference
    [b - a] is taken in int64); NaN without any value.  Then
    IQR = Q3 - Q1, lower bound = Q1 - 1.5 * IQR and
    upper bound = Q3 + 1.5 * IQR, each operation rounded to float64, and
    [outliers] holds exactly the rows whose value is strictly below the
    lower bound or strictly above the upper bound, in table order: no row
    with lower <= value <= upper is kept.  [scan] returns their count and
    that series. *)
Theorem scan_interpolates_and_flags (e : Env) (c : string) :
  (forall v : list float,
      lookup c (columns (df e)) = Some (Float64 v) ->
      length (index (df e)) = length v ->
      exists (e' : Env) (s : list float),
        iteration c e = (Ok tt, e') /\
        Permutation s (filter present v) /\
        StronglySorted (fun a b => SFleb a b = true) s /\
        (let interpolated (quarters : Z) :=
           match s with
           | [] => S754_nan
           | _ :: _ =>
               let p := (quarters * (Z.of_nat (length s) - 1))%Z in
               let a := nth (Z.to_nat (p / 4)) s S754_nan in
               let b := nth (Nat.min (Z.to_nat (p / 4) + 1) (length s - 1))
                            s S754_nan in
               let t := quarter (p mod 4) in
               let d := SFsub 53 1024 b a in
               if SFleb f0_5 t
               then SFsub 53 1024 b (SFmul 53 1024 d (SFsub 53 1024 f1_0 t))
               else SFadd 53 1024 a (SFmul 53 1024 d t)
           end in
         Q1 e' = interpolated 1%Z /\ Q3 e' = interpolated 3%Z) /\
        IQR e' = SFsub 53 1024 (Q3 e') (Q1 e') /\
        lower_bound e'
        = SFsub 53 1024 (Q1 e') (SFmul 53 1024 f1_5 (IQR e')) /\
        upper_bound e'
        = SFadd 53 1024 (Q3 e') (SFmul 53 1024 f1_5 (IQR e')) /\
        let flagged :=
          filter (fun r => SFltb (snd r) (lower_bound e')
                           || SFltb (upper_bound e') (snd r))
                 (combine (index (df e)) v) in
        outliers e' = mkSeries (map fst flagged) (Float64 (map snd flagged)) /\
        (forall i y, In (i, y) flagged ->
           ~ (SFleb (lower_bound e') y = true /\
              SFleb y (upper_bound e') = true)) /\
        scan (df e) c = Ok (length flagged, outliers e')) /\
  (forall z : list Z,
      lookup c (columns (df e)) = Some (Int64 z) ->
      length (index (df e)) = length z ->
      exists (e' : Env) (s : list Z),
        iteration c e = (Ok tt, e') /\
        Permutation s z /\
        StronglySorted (fun a b => (a <=? b)%Z = true) s /\
        (let interpolated (quarters : Z) :=
           match s with
           | [] => S754_nan
           | _ :: _ =>
               let p := (quarters * (Z.of_nat (length s) - 1))%Z in
               let a := nth (Z.to_nat (p / 4)) s 0%Z in
               let b := nth (Nat.min (Z.to_nat (p / 4) + 1) (length s - 1))
                            s 0%Z in
               let t := quarter (p mod 4) in
               let d := of_int (wrap64 (b - a)) in
               if SFleb f0_5 t
               then SFsub 53 1024 (of_int b)
                      (SFmul 53 1024 d (SFsub 53 1024 f1_0 t))
               else SFadd 53 1024 (of_int a) (SFmul 53 1024 d t)
           end in
         Q1 e' = interpolated 1%Z /\ Q3 e' = interpolated 3%Z) /\
        IQR e' = SFsub 53 1024 (Q3 e') (Q1 e') /\
        lower_bound e'
        = SFsub 53 1024 (Q1 e') (SFmul 53 1024 f1_5 (IQR e')) /\
        upper_bound e'
        = SFadd 53 1024 (Q3 e') (SFmul 53 1024 f1_5 (IQR e')) /\
        let flagged :=
          filter (fun r => SFltb (of_int (snd r)) (lower_bound e')
                           || SFltb (upper_bound e') (of_int (snd r)))
                 (combine (index (df e)) z) in
        outliers e' = mkSeries (map fst flagged) (Int64 (map snd flagged)) /\
        (forall i y, In (i, y) flagged ->
           ~ (SFleb (lower_bound e') (of_int y) = true /\
              SFleb (of_int y) (upper_bound e') = true)) /\
        scan (df e) c = Ok (length flagged, outliers e')).
Proof.
  split.
  - intros v Hl Hlen.
    exists (after e c (Float64 v) v), (sort fle (filter present v)).
    split; [now apply body_numeric|].
    split; [apply sort_permutation|].
    split; [apply sort_floats_ascending|].
    unfold after. cbv zeta.
    cbn [Q1 Q3 IQR lower_bound upper_bound outliers order_statistic
         select_col].
    rewrite dropna_present.
    split.
    { rewrite (at_quarters_explicit lerp _ 1 S754_nan) by lia.
      rewrite (at_quarters_explicit lerp _ 3 S754_nan) by lia.
      split; reflexivity. }
    do 3 (split; [reflexivity|]).
    set (lo := fsub _ _). set (hi := fadd _ _).
    destruct (select_rows (outside lo hi) _ _ Hlen) as [Hi Hv].
    split; [now rewrite Hi, Hv|]. split.
    + intros i y Hin [Hlo Hhi]. apply filter_In in Hin.
      destruct Hin as [_ Hout]. cbn [snd] in Hout.
      rewrite (SFleb_not_ltb _ _ Hlo), (SFleb_not_ltb _ _ Hhi) in Hout.
      discriminate.
    + rewrite (scan_of_body e c (Float64 v) v Hl eq_refl).
      unfold after. cbv zeta. cbn [outliers order_statistic select_col].
      rewrite dropna_present. fold lo hi. unfold len. cbn [s_index].
      rewrite Hi, length_map. reflexivity.
  - intros z Hl Hlen.
    exists (after e c (Int64 z) (map of_int z)), (sort Z.leb z).
    split; [now apply body_numeric|].
    split; [apply sort_permutation|].
    split; [apply sort_ints_ascending|].
    unfold after. cbv zeta.
    cbn [Q1 Q3 IQR lower_bound upper_bound outliers order_statistic
         select_col].
    split.
    { rewrite (at_quarters_explicit lerp_int _ 1 0%Z) by lia.
      rewrite (at_quarters_explicit lerp_int _ 3 0%Z) by lia.
      split; reflexivity. }
    do 3 (split; [reflexivity|]).
    set (lo := fsub _ _). set (hi := fadd _ _).
    rewrite map_map.
    destruct (select_rows (fun a => outside lo hi (of_int a)) _ _ Hlen)
      as [Hi Hv].
    split; [now rewrite Hi, Hv|]. split.
    + intros i y Hin [Hlo Hhi]. apply filter_In in Hin.
      destruct Hin as [_ Hout]. cbn [snd] in Hout.
      rewrite (SFleb_not_ltb _ _ Hlo), (SFleb_not_ltb _ _ Hhi) in Hout.
      discriminate.
    + rewrite (scan_of_body e c (Int64 z) (map of_int z) Hl eq_refl).
      unfold after. cbv zeta. cbn [outliers order_statistic select_col].
      fold lo hi. rewrite map_map. unfold len. cbn [s_index].
      rewrite Hi, length_map. reflexivity.
Qed.

Lemma scan_interpolates_and_flags_witness :
  (exists e',
      iteration "x" (loaded two_values) = (Ok tt, e') /\
      Q1 e' = S754_finite false 6079859496950169 (-50) /\
      Q3 e' = S754_finite false 6755399441055744 (-50) /\
      scan two_values "x" = Ok (0%nat, mkSeries [] (Float64 []))) /\
  (exists e',
      iteration "x" (loaded nine_values) = (Ok tt, e') /\
      Q1 e' = of_int 2 /\ Q3 e' = of_int 4 /\
      lower_bound e' = of_int (-1) /\ upper_bound e' = of_int 7 /\
      scan nine_values "x" = Ok (1%nat, mkSeries [8%nat] (Int64 [100%Z]))) /\
  (exists e',
      iteration "x" (loaded extreme_integers) = (Ok tt, e') /\
      Q1 e' = of_int (- 2 ^ 63) /\ Q3 e' = of_int (2 ^ 63) /\
      IQR e' = of_int (2 ^ 64) /\
      scan extreme_integers "x" = Ok (0%nat, mkSeries [] (Int64 []))).
Proof.
  split; [|split].
  - destruct (proj1 (scan_interpolates_and_flags (loaded two_values) "x")
                [f5_1; f6_3] eq_refl eq_refl)
      as (e' & s & Hrun & _).
    exists e'. split; [exact Hrun|].
    vm_compute in Hrun. injection Hrun as <-.
    repeat split; vm_compute; reflexivity.
  - destruct (proj2 (scan_interpolates_and_flags (loaded nine_values) "x")
                [1; 2; 2; 3; 3; 3; 4; 4; 100]%Z eq_refl eq_refl)
      as (e' & s & Hrun & _).
    exists e'. split; [exact Hrun|].
    vm_compute in Hrun. injection Hrun as <-.
    repeat split; vm_compute; reflexivity.
  - destruct (proj2 (scan_interpolates_and_flags (loaded extreme_integers)
                       "x")
                [- 2 ^ 63; 2 ^ 63 - 1]%Z eq_refl eq_refl)
      as (e' & s & Hrun & _).
    exists e'. split; [exact Hrun|].
    vm_compute in Hrun. injection Hrun as <-.
    repeat split; vm_compute; reflexivity.
Defined.

(** C1, as stated, fails on a float64 column that holds infinities.  Of
    the five values -inf, 1, 2, 3, +inf the position 0.75 * 4 = 3 is
    whole, so the 75th percentile is the order statistic 3; the body
    leaves NaN in Q3 (numpy adds (inf - 3) * 0 to it), NaN in both bounds,
    and flags no row, not even the two infinite ones. *)
Lemma quartile_of_infinite_values :
  lookup "x" (columns with_infinities)
  = Some (Float64 [ninf; of_int 1; of_int 2; of_int 3; pinf]) /\
  nth 3 (sort fle [ninf; of_int 1; of_int 2; of_int 3; pinf]) NaN
  = of_int 3 /\
  exists e',
    iteration "x" (loaded with_infinities) = (Ok tt, e') /\
    Q1 e' = of_int 1 /\ Q3 e' = NaN /\ IQR e' = NaN /\
    lower_bound e' = NaN /\ upper_bound e' = NaN /\
    scan with_infinities "x" = Ok (0%nat, mkSeries [] (Float64 [])).
Proof.
  split; [reflexivity|]. split; [vm_compute; reflexivity|].
  exists (snd (iteration "x" (loaded with_infinities))). by_running.
Qed.

(** *** Columns the body cannot scan *)

(** C3, as stated, fails: an object column without any row is not
    numeric, and its scan returns normally with NaN quartiles and a count
    of 0. *)
Lemma scan_of_empty_object_column :
  lookup "name" (columns names_without_rows) = Some (Object []) /\
  scan names_without_rows "name" = Ok (0%nat, mkSeries [] (Object [])) /\
  exists e',
    iteration "name" (loaded names_without_rows) = (Ok tt, e') /\
    Q1 e' = NaN /\ Q3 e' = NaN /\
    stdout e' = [Header "name"; Count 0].
Proof.
  split; [reflexivity|]. split; [vm_compute; reflexivity|].
  exists (snd (iteration "name" (loaded names_without_rows))). by_running.
Qed.

(** C3, amended.  There is no InvalidColumn error.  A name that is not a
    column of the table raises KeyError and a column of strings with at
    least one row raises TypeError, at the first statement of the body:
    the error reaches the caller, nothing was printed, and no variable
    but the loop variable [col] was assigned. *)
Theorem scan_raises_on_absent_or_string_column (e : Env) (c : string) :
  (lookup c (columns (df e)) = None ->
   scan (df e) c = Raise (KeyError c) /\
   exists e',
     iteration c e = (Raise (KeyError c), e') /\
     df e' = df e /\ numerical_cols e' = numerical_cols e /\ col e' = c /\
     report e' = report e /\ stdout e' = stdout e) /\
  (forall o os,
      lookup c (columns (df e)) = Some (Object (o :: os)) ->
      scan (df e) c = Raise TypeError /\
      exists e',
        iteration c e = (Raise TypeError, e') /\
        df e' = df e /\ numerical_cols e' = numerical_cols e /\ col e' = c /\
        report e' = report e /\ stdout e' = stdout e).
Proof.
  split.
  - intros Hl. split.
    + unfold scan. now rewrite (body_absent (loaded (df e)) c Hl).
    + exists (set_col c e). split; [now apply body_absent|].
      repeat split.
  - intros o os Hl. split.
    + unfold scan.
      now rewrite (body_strings (loaded (df e)) c _ Hl eq_refl).
    + exists (set_col c e).
      split; [now apply (body_strings e c _ Hl)|].
      repeat split.
Qed.

Lemma scan_raises_on_absent_or_string_column_witness :
  scan names "age" = Raise (KeyError "age") /\
  scan names "name" = Raise TypeError /\
  (exists e', iteration "name" (loaded names) = (Raise TypeError, e') /\
              stdout e' = []).
Proof.
  destruct (scan_raises_on_absent_or_string_column (loaded names) "age")
    as [Habsent _].
  destruct (scan_raises_on_absent_or_string_column (loaded names) "name")
    as [_ Hstrings].
  destruct (Habsent eq_refl) as [Ha _].
  destruct (Hstrings "a"%string ["b"%string] eq_refl)
    as (Hs & e' & Hrun & _ & _ & _ & _ & Hout).
  split; [exact Ha|]. split; [exact Hs|].
  exists e'. split; [exact Hrun | exact Hout].
Defined.

(** *** What the body changes *)

(** C9, as stated, fails: the body is not pure.  A pass over the nine
    values assigns the quartiles, the bounds and [outliers] in the
    kernel's namespace and prints three lines. *)
Lemma scan_assigns_and_prints :
  exists e',
    iteration "x" (loaded nine_values) = (Ok tt, e') /\
    Q1 (loaded nine_values) = NaN /\ Q1 e' = of_int 2 /\
    Q3 (loaded nine_values) = NaN /\ Q3 e' = of_int 4 /\
    outliers (loaded nine_values) = mkSeries [] (Float64 []) /\
    outliers e' = mkSeries [8%nat] (Int64 [100%Z]) /\
    stdout (loaded nine_values) = [] /\
    stdout e'
    = [Header "x"; Count 1; Shown (mkSeries [8%nat] (Int64 [100%Z]))].
Proof.
  exists (snd (iteration "x" (loaded nine_values))). by_running.
Qed.

(** C9, amended.  The body only reads the table: whether it returns or
    raises, [df] (every column, every row, their order) and
    [numerical_cols] are what they were.  Its effects are on the
    kernel's other variables and on the output: [col] is bound to the
    name; when it returns, Q1, Q3, IQR, both bounds and [outliers] are
    assigned and the header, the count and, for a positive count, the
    head of [outliers] are appended to the output; when it raises, none
    of them is assigned and nothing is printed. *)
Theorem body_reads_table_and_writes_report
    (e : Env) (c : string) (r : result unit) (e' : Env) :
  iteration c e = (r, e') ->
  df e' = df e /\ numerical_cols e' = numerical_cols e /\ col e' = c /\
  (r = Ok tt ->
   exists shown,
     stdout e' = stdout e ++ Header c :: Count (len (outliers e')) :: shown /\
     ((len (outliers e') = 0%nat /\ shown = []) \/
      ((0 < len (outliers e'))%nat /\
       shown = [Shown (head (outliers e'))]))) /\
  (forall x, r = Raise x -> report e' = report e /\ stdout e' = stdout e).
Proof.
  intros Hrun.
  destruct (lookup c (columns (df e))) as [k|] eqn:Hl.
  - destruct (as_float k) as [v|] eqn:Hn.
    + rewrite (body_numeric e c k v Hl Hn) in Hrun.
      injection Hrun as <- <-.
      repeat split; try discriminate.
      intros _. unfold after. cbv zeta. cbn [stdout outliers].
      set (o := mkSeries _ _).
      destruct (0 <? len o)%nat eqn:E.
      * exists [Shown (head o)]. split; [reflexivity|]. right.
        split; [now apply Nat.ltb_lt | reflexivity].
      * exists []. split; [reflexivity|]. left.
        split; [|reflexivity]. apply Nat.ltb_ge in E. lia.
    + rewrite (body_strings e c k Hl Hn) in Hrun.
      injection Hrun as <- <-. repeat split; discriminate.
  - rewrite (body_absent e c Hl) in Hrun.
    injection Hrun as <- <-. repeat split; discriminate.
Qed.

Lemma body_reads_table_and_writes_report_witness :
  exists e',
    iteration "x" (loaded nine_values) = (Ok tt, e') /\
    df e' = nine_values /\
    stdout e' = [Header "x"; Count 1; Shown (head (outliers e'))].
Proof.
  exists (snd (iteration "x" (loaded nine_values))).
  destruct (body_reads_table_and_writes_report (loaded nine_values) "x"
              (Ok tt) (snd (iteration "x" (loaded nine_values))))
    as (Hdf & _ & _ & _ & _).
  - vm_compute. reflexivity.
  - split; [vm_compute; reflexivity|].
    split; [exact Hdf | vm_compute; reflexivity].
Defined.


(** *** Missing values *)

Lemma filter_twice {A : Type} (f g : A -> bool) (l : list A) :
  filter f (filter g l) = filter (fun x => g x && f x) l.
Proof.
  induction l as [|x l IH]; simpl; [reflexivity|].
  destruct (g x); simpl; [destruct (f x)|]; now rewrite IH.
Qed.

Lemma values_of_filtered_rows {A : Type} (p : A -> bool) (idx : list nat)
    (v : list A) :
  length idx = length v ->
  map snd (filter (fun r => p (snd r)) (combine idx v)) = filter p v.
Proof.
  revert idx. induction v as [|y v IH]; intros [|i idx] H;
    simpl in *; try discriminate; [reflexivity|].
  injection H as H. destruct (p y); simpl; now rewrite IH.
Qed.

Lemma combine_fst_snd {A B : Type} (l : list (A * B)) :
  combine (map fst l) (map snd l) = l.
Proof. induction l as [|[a b] l IH]; simpl; [reflexivity | now rewrite IH]. Qed.

Lemma outside_present (lo hi y : float) :
  outside lo hi y = (present y && outside lo hi y).
Proof. destruct y; try reflexivity. now destruct hi. Qed.

Lemma quartiles_of_floats (e : Env) (c : string) (v : list float) :
  Q1 (after e c (Float64 v) v)
  = at_quarters lerp (sort fle (filter present v)) 1 /\
  Q3 (after e c (Float64 v) v)
  = at_quarters lerp (sort fle (filter present v)) 3.
Proof.
  unfold after. cbv zeta. cbn [Q1 Q3 order_statistic].
  now rewrite dropna_present.
Qed.

Lemma outliers_of_floats (e : Env) (c : string) (v : list float) :
  length (index (df e)) = length v ->
  outliers (after e c (Float64 v) v)
  = mkSeries
      (map fst
         (filter (fun r => outside (lower_bound (after e c (Float64 v) v))
                             (upper_bound (after e c (Float64 v) v)) (snd r))
                 (combine (index (df e)) v)))
      (Float64
         (map snd
            (filter (fun r => outside (lower_bound (after e c (Float64 v) v))
                                (upper_bound (after e c (Float64 v) v))
                                (snd r))
                    (combine (index (df e)) v)))).
Proof.
  intros Hlen. unfold after. cbv zeta.
  cbn [outliers lower_bound upper_bound select_col].
  match goal with
  | |- context [select (map (outside ?lo ?hi) v) _] =>
      destruct (select_rows (outside lo hi) _ _ Hlen) as [-> ->]
  end.
  reflexivity.
Qed.

Lemma present_twice (v : list float) :
  filter present (filter present v) = filter present v.
Proof.
  rewrite filter_twice. apply filter_ext. intros y. now destruct (present y).
Qed.

Lemma fence_of_same_values (e1 e2 : Env) (c : string) (v1 v2 : list float) :
  filter present v1 = filter present v2 ->
  Q1 (after e1 c (Float64 v1) v1) = Q1 (after e2 c (Float64 v2) v2) /\
  Q3 (after e1 c (Float64 v1) v1) = Q3 (after e2 c (Float64 v2) v2) /\
  IQR (after e1 c (Float64 v1) v1) = IQR (after e2 c (Float64 v2) v2) /\
  lower_bound (after e1 c (Float64 v1) v1)
  = lower_bound (after e2 c (Float64 v2) v2) /\
  upper_bound (after e1 c (Float64 v1) v1)
  = upper_bound (after e2 c (Float64 v2) v2).
Proof.
  intros H. unfold after. cbv zeta.
  cbn [Q1 Q3 IQR lower_bound upper_bound order_statistic].
  rewrite !dropna_present, H. repeat split.
Qed.

(** C7.  Missing values take no part in the scan of a float64 column:
    Q1 and Q3 are interpolated between the order statistics of the
    non-missing values only; the rows kept are the non-missing rows
    strictly outside the fence, so a row whose value is missing is neither
    returned nor counted; and the table from which the rows with a
    missing value were removed gets the same quartiles, the same fence
    and the same outliers. *)
Theorem missing_values_are_skipped (e : Env) (c : string) (v : list float) :
  lookup c (columns (df e)) = Some (Float64 v) ->
  length (index (df e)) = length v ->
  exists (e' : Env) (s : list float),
    iteration c e = (Ok tt, e') /\
    Permutation s (filter present v) /\
    StronglySorted (fun a b => SFleb a b = true) s /\
    Q1 e' = at_quarters lerp s 1 /\
    Q3 e' = at_quarters lerp s 3 /\
    (let flagged :=
       filter (fun r => present (snd r)
                        && (SFltb (snd r) (lower_bound e')
                            || SFltb (upper_bound e') (snd r)))
              (combine (index (df e)) v) in
     outliers e' = mkSeries (map fst flagged) (Float64 (map snd flagged)) /\
     Forall (fun y => y <> S754_nan) (map snd flagged) /\
     scan (df e) c = Ok (length flagged, outliers e')) /\
    (forall d : DataFrame,
        index d
        = map fst (filter (fun r => present (snd r))
                          (combine (index (df e)) v)) ->
        lookup c (columns d) = Some (Float64 (filter present v)) ->
        exists e2,
          iteration c (loaded d) = (Ok tt, e2) /\
          report e2 = report e' /\
          scan d c = scan (df e) c).
Proof.
  intros Hl Hlen.
  exists (after e c (Float64 v) v), (sort fle (filter present v)).
  split; [now apply body_numeric|].
  split; [apply sort_permutation|].
  split; [apply sort_floats_ascending|].
  destruct (quartiles_of_floats e c v) as [Hq1 Hq3].
  split; [exact Hq1|]. split; [exact Hq3|].
  pose proof (outliers_of_floats e c v Hlen) as Ho.
  set (e' := after e c (Float64 v) v) in *.
  assert (Hsame :
    filter (fun r => outside (lower_bound e') (upper_bound e') (snd r))
           (combine (index (df e)) v)
    = filter (fun r => present (snd r)
                       && (SFltb (snd r) (lower_bound e')
                           || SFltb (upper_bound e') (snd r)))
             (combine (index (df e)) v)).
  { apply filter_ext. intros r. apply outside_present. }
  cbv zeta. rewrite <- Hsame. split.
  - split; [exact Ho|]. split.
    + apply Forall_forall. intros y Hy. apply in_map_iff in Hy.
      destruct Hy as ([i y'] & <- & Hin). apply filter_In in Hin.
      cbn [snd] in *. destruct Hin as [_ Hout]. intros ->.
      now rewrite outside_present in Hout.
    + rewrite (scan_of_body e c (Float64 v) v Hl eq_refl).
      fold e'. rewrite Ho. unfold len. cbn [s_index].
      now rewrite length_map.
  - intros d Hidx Hcol.
    set (K := filter (fun r => present (snd r)) (combine (index (df e)) v))
      in *.
    assert (Hv2 : map snd K = filter present v)
      by (now apply values_of_filtered_rows).
    assert (Hlen2 : length (index (df (loaded d)))
                    = length (filter present v)).
    { cbn [loaded df]. rewrite Hidx, <- Hv2, !length_map. reflexivity. }
    pose proof (outliers_of_floats (loaded d) c (filter present v) Hlen2)
      as Ho2.
    destruct (fence_of_same_values (loaded d) e c (filter present v) v
                (present_twice v)) as (E1 & E3 & Ei & El & Eh).
    set (e2 := after (loaded d) c (Float64 (filter present v))
                 (filter present v)) in *.
    fold e' in E1, E3, Ei, El, Eh.
    assert (Hout : outliers e2 = outliers e').
    { rewrite Ho2, Ho, El, Eh. cbn [loaded df]. rewrite Hidx.
      rewrite <- Hv2 at 1 2. rewrite combine_fst_snd. unfold K.
      rewrite filter_twice.
      rewrite (filter_ext _ _ (fun r => outside_present
                 (lower_bound e') (upper_bound e') (snd r))).
      reflexivity. }
    exists e2.
    split; [now apply body_numeric|]. split.
    + unfold report. now rewrite E1, E3, Ei, El, Eh, Hout.
    + rewrite (scan_of_body e c (Float64 v) v Hl eq_refl).
      change (scan d c) with (scan (df (loaded d)) c).
      rewrite (scan_of_body (loaded d) c (Float64 (filter present v))
                 (filter present v) Hcol eq_refl).
      fold e' e2. now rewrite Hout.
Qed.


Lemma missing_values_are_skipped_witness :
  exists e',
    iteration "x" (loaded with_missing) = (Ok tt, e') /\
    Q1 e' = S754_finite false 7881299347898368 (-52) /\
    Q3 e' = S754_finite false 7670193115365376 (-48) /\
    outliers e' = mkSeries [5%nat] (Float64 [of_int 100]) /\
    scan with_missing "x" = Ok (1%nat, mkSeries [5%nat] (Float64 [of_int 100])) /\
    scan (mkDataFrame [0; 2; 3; 5]%nat
            [("x"%string,
              Float64 [of_int 1; of_int 2; of_int 3; of_int 100])]) "x"
    = scan with_missing "x".
Proof.
  destruct (missing_values_are_skipped (loaded with_missing) "x"
              [of_int 1; NaN; of_int 2; of_int 3; NaN; of_int 100]
              eq_refl eq_refl)
    as (e' & s & Hrun & _ & _ & _ & _ & _ & Hd).
  destruct (Hd (mkDataFrame [0; 2; 3; 5]%nat
                  [("x"%string,
                    Float64 [of_int 1; of_int 2; of_int 3; of_int 100])])
              eq_refl eq_refl) as (e2 & _ & _ & Hs2).
  exists e'. split; [exact Hrun|].
  vm_compute in Hrun. injection Hrun as <-.
  repeat split; try exact Hs2; vm_compute; reflexivity.
Defined.


(** *** Rounding to float64 *)

(** What [SpecFloat]'s rounding does to a mantissa, enough of it to
    compare a sum or a difference with one of its operands. *)
Section Rounding.
Local Open Scope Z_scope.

Lemma fexp_binary64 (x : Z) : fexp prec emax x = Z.max (x - 53) (-1074).
Proof. reflexivity. Qed.

(** **** The number of digits *)

Lemma digits_gt (p : positive) : Z.pos p < 2 ^ Z.pos (digits2_pos p).
Proof.
  induction p as [p IH|p IH|]; cbn [digits2_pos].
  - rewrite Pos2Z.inj_succ, Z.pow_succ_r by lia. lia.
  - rewrite Pos2Z.inj_succ, Z.pow_succ_r by lia. lia.
  - reflexivity.
Qed.

Lemma digits_le (p : positive) : 2 ^ (Z.pos (digits2_pos p) - 1) <= Z.pos p.
Proof.
  induction p as [p IH|p IH|]; cbn [digits2_pos].
  - rewrite Pos2Z.inj_succ.
    replace (Z.succ (Z.pos (digits2_pos p)) - 1)
      with (Z.succ (Z.pos (digits2_pos p) - 1)) by lia.
    rewrite Z.pow_succ_r by lia. lia.
  - rewrite Pos2Z.inj_succ.
    replace (Z.succ (Z.pos (digits2_pos p)) - 1)
      with (Z.succ (Z.pos (digits2_pos p) - 1)) by lia.
    rewrite Z.pow_succ_r by lia. lia.
  - reflexivity.
Qed.

Lemma digits_below (p : positive) (k : Z) :
  0 <= k -> Z.pos p < 2 ^ k -> Z.pos (digits2_pos p) <= k.
Proof.
  intros Hk H. pose proof (digits_le p) as L.
  destruct (Z_le_gt_dec (Z.pos (digits2_pos p)) k) as [|G]; [assumption|].
  assert (2 ^ k <= 2 ^ (Z.pos (digits2_pos p) - 1))
    by (apply Z.pow_le_mono_r; lia).
  lia.
Qed.

Lemma digits_above (p : positive) (k : Z) :
  0 <= k -> 2 ^ k <= Z.pos p -> k < Z.pos (digits2_pos p).
Proof.
  intros Hk H. pose proof (digits_gt p) as G.
  destruct (Z_lt_le_dec k (Z.pos (digits2_pos p))) as [|L]; [assumption|].
  assert (2 ^ Z.pos (digits2_pos p) <= 2 ^ k)
    by (apply Z.pow_le_mono_r; lia).
  lia.
Qed.

Lemma iter_xO_value (m d : positive) :
  Z.pos (Pos.iter xO m d) = Z.pos m * 2 ^ Z.pos d.
Proof.
  induction d as [|d IH] using Pos.peano_ind.
  - cbn. lia.
  - rewrite Pos.iter_succ, Pos2Z.inj_xO, IH, Pos2Z.inj_succ.
    rewrite Z.pow_succ_r by lia. lia.
Qed.

Lemma iter_xO_digits (m d : positive) :
  digits2_pos (Pos.iter xO m d) = (digits2_pos m + d)%positive.
Proof.
  induction d as [|d IH] using Pos.peano_ind.
  - cbn. lia.
  - rewrite Pos.iter_succ. cbn [digits2_pos]. rewrite IH. lia.
Qed.

(** **** Shifting right *)

Lemma shifted_start (m0 : Z) :
  shifted m0 0 (shr_record_of_loc m0 loc_Exact).
Proof.
  split; cbn; [now rewrite Z.div_1_r | discriminate].
Qed.

Lemma shifted_step (m0 k : Z) (mrs : shr_record) :
  0 <= m0 -> 0 <= k -> shifted m0 k mrs -> shifted m0 (k + 1) (shr_1 mrs).
Proof.
  intros H0 Hk [Hm Hl].
  assert (P : 0 < 2 ^ k) by (apply Z.pow_pos_nonneg; lia).
  assert (E : 2 ^ (k + 1) = 2 ^ k * 2) by (rewrite Z.pow_add_r; lia).
  assert (Q : m0 / 2 ^ (k + 1) = m0 / 2 ^ k / 2)
    by (rewrite E, Z.div_div; lia).
  assert (N : 0 <= m0 / 2 ^ k) by (apply Z.div_pos; lia).
  assert (R : m0 mod 2 ^ (k + 1) = 0 ->
              m0 mod 2 ^ k = 0 /\ (m0 / 2 ^ k) mod 2 = 0).
  { intros Z0. rewrite E, Z.rem_mul_r in Z0 by lia.
    pose proof (Z.mod_pos_bound m0 (2 ^ k) P).
    pose proof (Z.mod_pos_bound (m0 / 2 ^ k) 2 ltac:(lia)). nia. }
  destruct mrs as [m r s]. cbn [shr_m shr_r shr_s] in *.
  unfold shifted. rewrite Q, <- Hm.
  destruct m as [|[p|p|]|[p|p|]]; cbn [shr_1 shr_m shr_r shr_s]; try lia.
  - split; [reflexivity|]. intros T Z0. apply R in Z0.
    apply Hl; [|tauto]. now rewrite orb_false_l in T.
  - split; [apply Z.div_unique with 1; lia|].
    intros _ Z0. apply R in Z0. destruct Z0 as [_ Z0].
    rewrite <- Hm in Z0. Z.div_mod_to_equations. lia.
  - split; [apply Z.div_unique with 0; lia|].
    intros T Z0. apply R in Z0. apply Hl; [|tauto].
    now rewrite orb_false_l in T.
  - split; [reflexivity|].
    intros _ Z0. apply R in Z0. destruct Z0 as [_ Z0].
    rewrite <- Hm in Z0. discriminate.
Qed.

Lemma shifted_iter (p : positive) (m0 k : Z) (mrs : shr_record) :
  0 <= m0 -> 0 <= k -> shifted m0 k mrs ->
  shifted m0 (k + Z.pos p) (iter_pos shr_1 p mrs).
Proof.
  intros H0. revert k mrs.
  induction p as [p IH|p IH|]; intros k mrs Hk H; cbn [iter_pos].
  - replace (k + Z.pos p~1) with (k + 1 + Z.pos p + Z.pos p) by lia.
    apply IH; [lia|]. apply IH; [lia|]. now apply shifted_step.
  - replace (k + Z.pos p~0) with (k + Z.pos p + Z.pos p) by lia.
    apply IH; [lia|]. now apply IH.
  - now apply shifted_step.
Qed.


Lemma shr_shifted (m0 e n : Z) :
  0 <= m0 -> 0 <= n ->
  shifted m0 n (fst (shr (shr_record_of_loc m0 loc_Exact) e n)) /\
  snd (shr (shr_record_of_loc m0 loc_Exact) e n) = e + n.
Proof.
  intros H0 Hn. destruct n as [|p|p]; cbn [shr fst snd]; try lia.
  - split; [apply shifted_start | lia].
  - split; [|reflexivity].
    apply (shifted_iter p m0 0); [lia | lia | apply shifted_start].
Qed.

Lemma shr_nothing (mrs : shr_record) (e n : Z) :
  n <= 0 -> shr mrs e n = (mrs, e).
Proof. destruct n; try reflexivity. lia. Qed.

Lemma round_nearest_even_cases (mrs : shr_record) :
  round_nearest_even (shr_m mrs) (loc_of_shr_record mrs) = shr_m mrs \/
  (round_nearest_even (shr_m mrs) (loc_of_shr_record mrs) = shr_m mrs + 1 /\
   orb (shr_r mrs) (shr_s mrs) = true).
Proof.
  destruct mrs as [m [] []]; cbn; try destruct (Z.even m); auto.
Qed.

(** What rounding does to the mantissa [mz] at the exponent [e0], not
    above the exponent [E] of its binade: [mz] is divided by
    [2 ^ (E - e0)], the quotient goes up by one at most, and only if the
    division is not exact; a mantissa that reaches [2 ^ 53] moves to the
    next exponent. *)
Lemma binary_round_aux_cases (s : bool) (mz : positive) (e0 : Z) :
  e0 <= fexp prec emax (Z.pos (digits2_pos mz) + e0) ->
  exists m2 : Z,
    Z.pos mz / 2 ^ (fexp prec emax (Z.pos (digits2_pos mz) + e0) - e0) <= m2 /\
    (m2 = Z.pos mz / 2 ^ (fexp prec emax (Z.pos (digits2_pos mz) + e0) - e0)
     \/ (m2 = Z.pos mz / 2 ^ (fexp prec emax (Z.pos (digits2_pos mz) + e0) - e0)
              + 1 /\
         Z.pos mz mod 2 ^ (fexp prec emax (Z.pos (digits2_pos mz) + e0) - e0)
         <> 0)) /\
    m2 <= 2 ^ 53 /\
    (-1074 < fexp prec emax (Z.pos (digits2_pos mz) + e0) -> 2 ^ 52 <= m2) /\
    binary_round_aux prec emax s (Z.pos mz) e0 loc_Exact
    = if m2 =? 0 then S754_zero s
      else if m2 <? 2 ^ 53
           then if fexp prec emax (Z.pos (digits2_pos mz) + e0) <=? 971
                then S754_finite s (Z.to_pos m2)
                       (fexp prec emax (Z.pos (digits2_pos mz) + e0))
                else S754_infinity s
           else if fexp prec emax (Z.pos (digits2_pos mz) + e0) + 1 <=? 971
                then S754_finite s (Z.to_pos (2 ^ 52))
                       (fexp prec emax (Z.pos (digits2_pos mz) + e0) + 1)
                else S754_infinity s.
Proof.
  set (E := fexp prec emax (Z.pos (digits2_pos mz) + e0)).
  intros He0.
  assert (HE : E = Z.max (Z.pos (digits2_pos mz) + e0 - 53) (-1074))
    by reflexivity.
  set (k := E - e0).
  assert (Hk : 0 <= k) by (unfold k; lia).
  assert (P : 0 < 2 ^ k) by (apply Z.pow_pos_nonneg; lia).
  set (mt := Z.pos mz / 2 ^ k).
  assert (Hmt0 : 0 <= mt) by (apply Z.div_pos; lia).
  assert (Hmt : mt < 2 ^ 53).
  { apply Z.div_lt_upper_bound; [lia|].
    pose proof (digits_gt mz) as G.
    assert (2 ^ Z.pos (digits2_pos mz) <= 2 ^ (k + 53))
      by (apply Z.pow_le_mono_r; unfold k; lia).
    rewrite Z.pow_add_r in H by lia. lia. }
  assert (Hmt2 : -1074 < E -> 2 ^ 52 <= mt).
  { intros HN. apply Z.div_le_lower_bound; [lia|].
    pose proof (digits_le mz) as L.
    replace (Z.pos (digits2_pos mz) - 1) with (k + 52) in L
      by (unfold k; lia).
    rewrite Z.pow_add_r in L by lia. lia. }
  unfold binary_round_aux, shr_fexp. cbn [Zdigits2]. fold E. fold k.
  destruct (shr_shifted (Z.pos mz) e0 k ltac:(lia) Hk) as [[Hm Hl] He].
  destruct (shr (shr_record_of_loc (Z.pos mz) loc_Exact) e0 k)
    as [mrs1 e1]. cbn [fst snd] in Hm, Hl, He. fold mt in Hm.
  assert (He' : e1 = E) by (unfold k in He; lia). clear He. subst e1.
  set (m2 := round_nearest_even (shr_m mrs1) (loc_of_shr_record mrs1)).
  assert (Hm2 : m2 = mt \/ (m2 = mt + 1 /\ Z.pos mz mod 2 ^ k <> 0)).
  { destruct (round_nearest_even_cases mrs1) as [R|[R T]];
      fold m2 in R; rewrite Hm in R; [left | right; split]; auto. }
  clearbody m2. exists m2.
  split; [lia|]. split; [exact Hm2|]. split; [lia|]. split; [lia|].
  destruct (Z.eqb_spec m2 0) as [Z0|NZ].
  - rewrite Z0. cbn [Zdigits2 Z.add].
    rewrite shr_nothing by (rewrite fexp_binary64; lia). reflexivity.
  - destruct (Z.ltb_spec m2 (2 ^ 53)) as [Lt|Ge].
    + destruct m2 as [|q|q] eqn:Eq; try lia. cbn [Zdigits2].
      pose proof (digits_below q 53 ltac:(lia) Lt) as Dq.
      rewrite shr_nothing by (rewrite fexp_binary64; lia).
      cbn [shr_m shr_record_of_loc]. rewrite Pos2Z.id. reflexivity.
    + assert (H : m2 = 2 ^ 53) by lia. rewrite H.
      change (Zdigits2 (2 ^ 53)) with 54.
      replace (fexp prec emax (54 + E) - E) with 1
        by (rewrite fexp_binary64; lia).
      reflexivity.
Qed.


Lemma shl_align_cases (mx : positive) (ex ex' : Z) :
  (ex <= ex' /\ shl_align mx ex ex' = (mx, ex)) \/
  exists d, ex - ex' = Z.pos d /\
            shl_align mx ex ex' = (Pos.iter xO mx d, ex').
Proof.
  unfold shl_align. destruct (ex' - ex) as [|d|d] eqn:E.
  - left. split; [lia | reflexivity].
  - left. split; [lia | reflexivity].
  - right. exists d. split; [lia | reflexivity].
Qed.

(** The result of rounding [m2] at the exponent [E]. *)
Lemma binary_round_cases (s : bool) (n : positive) (ez : Z) :
  exists (mz : positive) (m2 : Z),
    Z.pos mz
    = Z.pos n * 2 ^ (ez - Z.min ez (fexp prec emax (Z.pos (digits2_pos n) + ez)))
    /\
    Z.pos mz / 2 ^ (fexp prec emax (Z.pos (digits2_pos n) + ez)
                    - Z.min ez (fexp prec emax (Z.pos (digits2_pos n) + ez)))
    <= m2 /\
    (m2 = Z.pos mz
          / 2 ^ (fexp prec emax (Z.pos (digits2_pos n) + ez)
                 - Z.min ez (fexp prec emax (Z.pos (digits2_pos n) + ez)))
     \/ (m2 = Z.pos mz
              / 2 ^ (fexp prec emax (Z.pos (digits2_pos n) + ez)
                     - Z.min ez (fexp prec emax (Z.pos (digits2_pos n) + ez)))
              + 1 /\
         Z.pos mz
         mod 2 ^ (fexp prec emax (Z.pos (digits2_pos n) + ez)
                  - Z.min ez (fexp prec emax (Z.pos (digits2_pos n) + ez)))
         <> 0)) /\
    m2 <= 2 ^ 53 /\
    (-1074 < fexp prec emax (Z.pos (digits2_pos n) + ez) -> 2 ^ 52 <= m2) /\
    binary_round prec emax s n ez
    = if m2 =? 0 then S754_zero s
      else if m2 <? 2 ^ 53
           then if fexp prec emax (Z.pos (digits2_pos n) + ez) <=? 971
                then S754_finite s (Z.to_pos m2)
                       (fexp prec emax (Z.pos (digits2_pos n) + ez))
                else S754_infinity s
           else if fexp prec emax (Z.pos (digits2_pos n) + ez) + 1 <=? 971
                then S754_finite s (Z.to_pos (2 ^ 52))
                       (fexp prec emax (Z.pos (digits2_pos n) + ez) + 1)
                else S754_infinity s.
Proof.
  set (E := fexp prec emax (Z.pos (digits2_pos n) + ez)).
  unfold binary_round. fold E.
  destruct (shl_align_cases n ez E) as [[Hle ->]|(d & Hd & ->)].
  - pose proof (binary_round_aux_cases s n ez) as H. fold E in H.
    destruct (H Hle) as (m2 & H1 & H2 & H3 & H4 & H5).
    exists n, m2. rewrite Z.min_l by lia.
    rewrite Z.sub_diag, Z.pow_0_r, Z.mul_1_r.
    repeat split; solve [assumption | reflexivity].
  - pose proof (binary_round_aux_cases s (Pos.iter xO n d) E) as H.
    rewrite iter_xO_digits, Pos2Z.inj_add in H.
    replace (Z.pos (digits2_pos n) + Z.pos d + E)
      with (Z.pos (digits2_pos n) + ez) in H by lia.
    fold E in H.
    destruct (H ltac:(lia)) as (m2 & H1 & H2 & H3 & H4 & H5).
    exists (Pos.iter xO n d), m2. rewrite Z.min_r by lia.
    split; [rewrite iter_xO_value; f_equal; f_equal; lia|].
    repeat split; assumption.
Qed.


(** **** Rounding is monotone around a float64 *)

Lemma bounded_canonical (ma : positive) (ea : Z) :
  bounded prec emax ma ea = true ->
  -1074 <= ea <= 971 /\ Z.pos (digits2_pos ma) <= 53 /\
  (-1074 < ea -> Z.pos (digits2_pos ma) = 53) /\
  Z.pos ma < 2 ^ 53.
Proof.
  unfold bounded, canonical_mantissa. intros H.
  apply andb_true_iff in H. destruct H as [C B].
  apply Z.eqb_eq in C. apply Z.leb_le in B.
  rewrite fexp_binary64 in C. change (emax - prec) with 971 in B.
  assert (D : Z.pos (digits2_pos ma) <= 53) by lia.
  repeat split; try lia.
  pose proof (digits_gt ma).
  assert (2 ^ Z.pos (digits2_pos ma) <= 2 ^ 53)
    by (apply Z.pow_le_mono_r; lia).
  lia.
Qed.

Lemma round_below (s : bool) (n : positive) (ez : Z) (ma : positive)
    (ea : Z) :
  bounded prec emax ma ea = true ->
  ez <= ea ->
  Z.pos n <= Z.pos ma * 2 ^ (ea - ez) ->
  at_most s ma ea (binary_round prec emax s n ez).
Proof.
  intros Hb Hez Hn.
  destruct (bounded_canonical ma ea Hb) as (Bea & Dma & _ & Mma).
  unfold bounded, canonical_mantissa in Hb.
  apply andb_true_iff in Hb. destruct Hb as [Ca _].
  apply Z.eqb_eq in Ca. rewrite fexp_binary64 in Ca.
  destruct (binary_round_cases s n ez)
    as (mz & m2 & Hz & H1 & H2 & H3 & H4 & ->).
  pose proof (fexp_binary64 (Z.pos (digits2_pos n) + ez)) as HE.
  set (E := fexp prec emax (Z.pos (digits2_pos n) + ez)) in *.
  set (e0 := Z.min ez E) in *.
  assert (Dn : Z.pos (digits2_pos n) <= Z.pos (digits2_pos ma) + (ea - ez)).
  { apply digits_below; [lia|].
    pose proof (digits_gt ma) as G.
    rewrite Z.pow_add_r by lia.
    assert (0 < 2 ^ (ea - ez)) by (apply Z.pow_pos_nonneg; lia). nia. }
  assert (HEa : E <= ea) by lia.
  assert (He0 : e0 <= ez /\ e0 <= E) by (unfold e0; lia).
  set (A := Z.pos ma * 2 ^ (ea - E)).
  assert (P1 : 0 < 2 ^ (E - e0)) by (apply Z.pow_pos_nonneg; lia).
  assert (P2 : 0 < 2 ^ (ez - e0)) by (apply Z.pow_pos_nonneg; lia).
  assert (P3 : 0 < 2 ^ (ea - ez)) by (apply Z.pow_pos_nonneg; lia).
  assert (P4 : 0 < 2 ^ (ea - E)) by (apply Z.pow_pos_nonneg; lia).
  assert (HA : Z.pos mz <= 2 ^ (E - e0) * A).
  { unfold A. rewrite Hz.
    assert (X : 2 ^ (E - e0) * (Z.pos ma * 2 ^ (ea - E))
                = Z.pos ma * 2 ^ (ea - ez) * 2 ^ (ez - e0)).
    { rewrite <- Z.mul_assoc, <- Z.pow_add_r by lia.
      rewrite (Z.mul_comm (2 ^ _)), <- Z.mul_assoc, <- Z.pow_add_r by lia.
      f_equal. f_equal. lia. }
    rewrite X. nia. }
  assert (Hm2 : m2 <= A).
  { destruct H2 as [->|[-> Hr]].
    - apply Z.div_le_upper_bound; lia.
    - assert (Z.pos mz <> 2 ^ (E - e0) * A).
      { intros Heq. apply Hr. rewrite Heq, Z.mul_comm. apply Z.mod_mul. lia. }
      assert (Z.pos mz / 2 ^ (E - e0) < A)
        by (apply Z.div_lt_upper_bound; lia).
      lia. }
  assert (Hm0 : 0 <= m2).
  { assert (0 <= Z.pos mz / 2 ^ (E - e0)) by (apply Z.div_pos; lia). lia. }
  unfold at_most.
  destruct (Z.eqb_spec m2 0) as [|NZ]; [now left|].
  right.
  destruct (Z.ltb_spec m2 (2 ^ 53)) as [Lt|Ge].
  - replace (E <=? 971) with true by (symmetry; apply Z.leb_le; lia).
    exists (Z.to_pos m2), E. split; [reflexivity|].
    rewrite Z2Pos.id by lia.
    destruct (Z.eq_dec E ea) as [Eq|]; [right | left; lia].
    split; [exact Eq|]. unfold A in Hm2.
    rewrite Eq, Z.sub_diag, Z.pow_0_r in Hm2. lia.
  - assert (E + 1 <= ea).
    { destruct (Z.eq_dec E ea) as [Eq|]; [|lia]. unfold A in Hm2.
      rewrite Eq, Z.sub_diag, Z.pow_0_r in Hm2. lia. }
    replace (E + 1 <=? 971) with true by (symmetry; apply Z.leb_le; lia).
    exists (Z.to_pos (2 ^ 52)), (E + 1). split; [reflexivity|].
    destruct (Z.eq_dec (E + 1) ea) as [Eq|]; [right | left; lia].
    split; [exact Eq|]. unfold A in Hm2.
    replace (ea - E) with 1 in Hm2 by lia.
    change (Z.pos (Z.to_pos (2 ^ 52))) with (2 ^ 52).
    change (2 ^ 1) with 2 in Hm2. change (2 ^ 53) with (2 * 2 ^ 52) in Ge.
    lia.
Qed.

Lemma round_above (s : bool) (n : positive) (ez : Z) (ma : positive)
    (ea : Z) :
  bounded prec emax ma ea = true ->
  ez <= ea ->
  Z.pos ma * 2 ^ (ea - ez) <= Z.pos n ->
  at_least s ma ea (binary_round prec emax s n ez).
Proof.
  intros Hb Hez Hn.
  destruct (bounded_canonical ma ea Hb) as (Bea & Dma & _ & Mma).
  unfold bounded, canonical_mantissa in Hb.
  apply andb_true_iff in Hb. destruct Hb as [Ca _].
  apply Z.eqb_eq in Ca. rewrite fexp_binary64 in Ca.
  destruct (binary_round_cases s n ez)
    as (mz & m2 & Hz & H1 & H2 & H3 & H4 & ->).
  pose proof (fexp_binary64 (Z.pos (digits2_pos n) + ez)) as HE.
  set (E := fexp prec emax (Z.pos (digits2_pos n) + ez)) in *.
  set (e0 := Z.min ez E) in *.
  assert (Dn : Z.pos (digits2_pos ma) - 1 + (ea - ez)
               < Z.pos (digits2_pos n)).
  { apply digits_above; [lia|].
    pose proof (digits_le ma) as L.
    rewrite Z.pow_add_r by lia.
    assert (0 < 2 ^ (ea - ez)) by (apply Z.pow_pos_nonneg; lia). nia. }
  assert (HEa : ea <= E) by lia.
  assert (Hpos : 0 < m2).
  { destruct (Z.eq_dec E ea) as [Eq|Ne].
    - assert (e0 = ez) by (unfold e0; lia).
      assert (Hmz : Z.pos mz = Z.pos n)
        by (rewrite Hz; replace (ez - e0) with 0 by lia; cbn; lia).
      assert (Z.pos ma <= Z.pos mz / 2 ^ (E - e0)).
      { apply Z.div_le_lower_bound;
          [apply Z.pow_pos_nonneg; lia|].
        rewrite Hmz. replace (E - e0) with (ea - ez) by lia. lia. }
      lia.
    - assert (2 ^ 52 <= m2) by (apply H4; lia). lia. }
  unfold at_least.
  replace (m2 =? 0) with false by (symmetry; apply Z.eqb_neq; lia).
  destruct (Z.ltb_spec m2 (2 ^ 53)) as [Lt|Ge].
  - destruct (E <=? 971); [right | now left].
    exists (Z.to_pos m2), E. split; [reflexivity|].
    rewrite Z2Pos.id by lia.
    destruct (Z.eq_dec E ea) as [Eq|]; [right | left; lia].
    split; [exact Eq|].
    assert (e0 = ez) by (unfold e0; lia).
    assert (Hmz : Z.pos mz = Z.pos n)
      by (rewrite Hz; replace (ez - e0) with 0 by lia; cbn; lia).
    assert (Z.pos ma <= Z.pos mz / 2 ^ (E - e0)).
    { apply Z.div_le_lower_bound;
        [apply Z.pow_pos_nonneg; lia|].
      rewrite Hmz. replace (E - e0) with (ea - ez) by lia. lia. }
    lia.
  - destruct (E + 1 <=? 971); [right | now left].
    exists (Z.to_pos (2 ^ 52)), (E + 1). split; [reflexivity|]. left. lia.
Qed.


(** **** Signs *)

Lemma shr_1_nonneg (mrs : shr_record) :
  0 <= shr_m mrs -> 0 <= shr_m (shr_1 mrs).
Proof.
  destruct mrs as [m r s]. cbn [shr_m].
  destruct m as [|[p|p|]|[p|p|]]; cbn [shr_1 shr_m]; lia.
Qed.

Lemma iter_shr_1_nonneg (p : positive) (mrs : shr_record) :
  0 <= shr_m mrs -> 0 <= shr_m (iter_pos shr_1 p mrs).
Proof.
  revert mrs. induction p as [p IH|p IH|]; intros mrs H; cbn [iter_pos].
  - apply IH, IH. now apply shr_1_nonneg.
  - now apply IH, IH.
  - now apply shr_1_nonneg.
Qed.

Lemma shr_nonneg (mrs : shr_record) (e n : Z) :
  0 <= shr_m mrs -> 0 <= shr_m (fst (shr mrs e n)).
Proof.
  intros H. destruct n as [|p|p]; cbn [shr fst]; try assumption.
  now apply iter_shr_1_nonneg.
Qed.

Lemma binary_round_aux_signed (s : bool) (m : positive) (e : Z)
    (l : location) :
  signed s (binary_round_aux prec emax s (Z.pos m) e l).
Proof.
  unfold binary_round_aux, shr_fexp.
  pose proof (shr_nonneg (shr_record_of_loc (Z.pos m) l) e
                (fexp prec emax (Zdigits2 (Z.pos m) + e) - e)) as H1.
  destruct (shr (shr_record_of_loc (Z.pos m) l) e
              (fexp prec emax (Zdigits2 (Z.pos m) + e) - e)) as [mrs1 e1].
  cbn [fst] in H1.
  assert (N1 : 0 <= shr_m mrs1) by (apply H1; destruct l as [|[]]; cbn; lia).
  pose proof (round_nearest_even_cases mrs1) as R.
  set (m2 := round_nearest_even (shr_m mrs1) (loc_of_shr_record mrs1)) in *.
  pose proof (shr_nonneg (shr_record_of_loc m2 loc_Exact) e1
                (fexp prec emax (Zdigits2 m2 + e1) - e1)) as H2.
  destruct (shr (shr_record_of_loc m2 loc_Exact) e1
              (fexp prec emax (Zdigits2 m2 + e1) - e1)) as [mrs2 e2].
  cbn [fst] in H2.
  assert (N2 : 0 <= shr_m mrs2) by (apply H2; cbn; lia).
  destruct (shr_m mrs2) as [|p|p]; [reflexivity| |lia].
  destruct (e2 <=? emax - prec); reflexivity.
Qed.

Lemma binary_round_signed (s : bool) (n : positive) (e : Z) :
  signed s (binary_round prec emax s n e).
Proof.
  unfold binary_round.
  destruct (shl_align n e (fexp prec emax (Z.pos (digits2_pos n) + e)))
    as [mz ez].
  apply binary_round_aux_signed.
Qed.

Lemma signed_nonneg (r : float) :
  signed false r -> SFleb (S754_zero false) r = true.
Proof. destruct r as [s|s| |s m e]; cbn; intros H; now subst. Qed.

Lemma nonneg_cases (x : float) :
  SFleb (S754_zero false) x = true ->
  (exists s, x = S754_zero s) \/ x = S754_infinity false \/
  exists m e, x = S754_finite false m e.
Proof.
  destruct x as [s|[]| |[] m e]; cbn; intros H; try discriminate; eauto.
Qed.

(** **** Comparisons with a rounded result *)

Lemma at_most_leb (ma : positive) (ea : Z) (r : float) :
  at_most false ma ea r -> SFleb r (S754_finite false ma ea) = true.
Proof.
  intros [->|(m & e & -> & H)]; [reflexivity|].
  unfold SFleb. cbn [SFcompare].
  change (Pos.compare_cont Eq m ma) with (Pos.compare m ma).
  destruct (Z.compare_spec e ea); try lia; try reflexivity.
  destruct (Pos.compare_spec m ma); try lia; reflexivity.
Qed.

Lemma at_least_leb (ma : positive) (ea : Z) (r : float) :
  at_least false ma ea r -> SFleb (S754_finite false ma ea) r = true.
Proof.
  intros [->|(m & e & -> & H)]; [reflexivity|].
  unfold SFleb. cbn [SFcompare].
  change (Pos.compare_cont Eq ma m) with (Pos.compare ma m).
  destruct (Z.compare_spec ea e); try lia; try reflexivity.
  destruct (Pos.compare_spec ma m); try lia; reflexivity.
Qed.

Lemma at_most_leb_opp (ma : positive) (ea : Z) (r : float) :
  at_most true ma ea r -> SFleb (S754_finite true ma ea) r = true.
Proof.
  intros [->|(m & e & -> & H)]; [reflexivity|].
  unfold SFleb. cbn [SFcompare].
  change (Pos.compare_cont Eq ma m) with (Pos.compare ma m).
  destruct (Z.compare_spec ea e); try lia; try reflexivity.
  destruct (Pos.compare_spec ma m); try lia; reflexivity.
Qed.

Lemma at_least_leb_opp (ma : positive) (ea : Z) (r : float) :
  at_least true ma ea r -> SFleb r (S754_finite true ma ea) = true.
Proof.
  intros [->|(m & e & -> & H)]; [reflexivity|].
  unfold SFleb. cbn [SFcompare].
  change (Pos.compare_cont Eq m ma) with (Pos.compare m ma).
  destruct (Z.compare_spec e ea); try lia; try reflexivity.
  destruct (Pos.compare_spec m ma); try lia; reflexivity.
Qed.

Lemma signed_leb_positive (r : float) (ma : positive) (ea : Z) :
  signed true r -> SFleb r (S754_finite false ma ea) = true.
Proof. destruct r as [s|s| |s m e]; cbn; intros H; now subst. Qed.

Lemma signed_leb_negative (r : float) (ma : positive) (ea : Z) :
  signed false r -> SFleb (S754_finite true ma ea) r = true.
Proof. destruct r as [s|s| |s m e]; cbn; intros H; now subst. Qed.

(** **** Aligned mantissas *)

Lemma shl_align_value (m : positive) (e ez : Z) :
  ez <= e -> Z.pos (fst (shl_align m e ez)) = Z.pos m * 2 ^ (e - ez).
Proof.
  intros H. destruct (shl_align_cases m e ez) as [[Hle ->]|(d & Hd & ->)];
    cbn [fst].
  - replace (e - ez) with 0 by lia. cbn. lia.
  - rewrite iter_xO_value. now rewrite Hd.
Qed.


(** **** Subtracting and adding a number that is not negative *)

Lemma fsub_below (q x : float) :
  finite q = true ->
  valid_binary prec emax q = true ->
  SFleb (S754_zero false) x = true ->
  SFleb (fsub q x) q = true.
Proof.
  intros Hf Hv Hx.
  destruct (nonneg_cases x Hx) as [[sx ->]|[->|(mx & ex & ->)]];
    destruct q as [sq| | |sq mq eq]; try discriminate.
  - now destruct sq, sx.
  - unfold fsub, SFleb. cbn [SFsub]. now rewrite SFcompare_refl.
  - now destruct sq.
  - now destruct sq.
  - now destruct sq.
  - unfold fsub. cbn [SFsub]. cbv zeta.
    set (ez := Z.min eq ex).
    pose proof (shl_align_value mq eq ez ltac:(lia)) as Vq.
    pose proof (shl_align_value mx ex ez ltac:(lia)) as Vx.
    set (Mq := Z.pos (fst (shl_align mq eq ez))) in *.
    set (Mx := Z.pos (fst (shl_align mx ex ez))) in *.
    assert (0 < Mq) by (unfold Mq; lia).
    assert (0 < Mx) by (unfold Mx; lia).
    destruct sq; cbn [cond_Zopp].
    + destruct (- Mq - Mx) as [|n|n] eqn:N; try lia.
      cbn [binary_normalize].
      apply at_least_leb_opp, round_above; [exact Hv | lia | lia].
    + destruct (Mq - Mx) as [|n|n] eqn:N; cbn [binary_normalize].
      * reflexivity.
      * apply at_most_leb, round_below; [exact Hv | lia | lia].
      * apply signed_leb_positive, binary_round_signed.
Qed.

Lemma fadd_above (q x : float) :
  finite q = true ->
  valid_binary prec emax q = true ->
  SFleb (S754_zero false) x = true ->
  SFleb q (fadd q x) = true.
Proof.
  intros Hf Hv Hx.
  destruct (nonneg_cases x Hx) as [[sx ->]|[->|(mx & ex & ->)]];
    destruct q as [sq| | |sq mq eq]; try discriminate.
  - now destruct sq, sx.
  - unfold fadd, SFleb. cbn [SFadd]. now rewrite SFcompare_refl.
  - now destruct sq.
  - now destruct sq.
  - now destruct sq.
  - unfold fadd. cbn [SFadd]. cbv zeta.
    set (ez := Z.min eq ex).
    pose proof (shl_align_value mq eq ez ltac:(lia)) as Vq.
    pose proof (shl_align_value mx ex ez ltac:(lia)) as Vx.
    set (Mq := Z.pos (fst (shl_align mq eq ez))) in *.
    set (Mx := Z.pos (fst (shl_align mx ex ez))) in *.
    assert (0 < Mq) by (unfold Mq; lia).
    assert (0 < Mx) by (unfold Mx; lia).
    destruct sq; cbn [cond_Zopp].
    + destruct (- Mq + Mx) as [|n|n] eqn:N; cbn [binary_normalize].
      * reflexivity.
      * apply signed_leb_negative, binary_round_signed.
      * apply at_most_leb_opp, round_below; [exact Hv | lia | lia].
    + destruct (Mq + Mx) as [|n|n] eqn:N; try lia.
      cbn [binary_normalize].
      apply at_least_leb, round_above; [exact Hv | lia | lia].
Qed.

Lemma fmul_nonneg (x : float) :
  SFleb (S754_zero false) x = true ->
  SFleb (S754_zero false) (fmul f1_5 x) = true.
Proof.
  intros Hx.
  destruct (nonneg_cases x Hx) as [[sx ->]|[->|(mx & ex & ->)]].
  - now destruct sx.
  - reflexivity.
  - apply signed_nonneg. unfold fmul, f1_5. cbn [SFmul xorb].
    apply binary_round_aux_signed.
Qed.

(** **** The difference of two ordered numbers *)

Lemma leb_finite_cases (s1 s3 : bool) (m1 m3 : positive) (e1 e3 : Z) :
  SFleb (S754_finite s1 m1 e1) (S754_finite s3 m3 e3) = true ->
  (s1 = true /\ s3 = false) \/
  (s1 = false /\ s3 = false /\
   (e1 < e3 \/ (e1 = e3 /\ Z.pos m1 <= Z.pos m3))) \/
  (s1 = true /\ s3 = true /\
   (e3 < e1 \/ (e3 = e1 /\ Z.pos m3 <= Z.pos m1))).
Proof.
  unfold SFleb. cbn [SFcompare].
  change (Pos.compare_cont Eq m1 m3) with (Pos.compare m1 m3).
  destruct s1, s3; try discriminate; auto;
    destruct (Z.compare_spec e1 e3); cbn [CompOpp]; try discriminate;
    try (intros _; right; solve [left; repeat split; lia
                                | right; repeat split; lia]);
    destruct (Pos.compare_spec m1 m3); cbn [CompOpp]; try discriminate;
    intros _; right;
    solve [left; repeat split; lia | right; repeat split; lia].
Qed.

Lemma canonical_order (m1 m3 : positive) (e1 e3 : Z) :
  bounded prec emax m1 e1 = true ->
  bounded prec emax m3 e3 = true ->
  e1 < e3 \/ (e1 = e3 /\ Z.pos m1 <= Z.pos m3) ->
  Z.pos m1 * 2 ^ (e1 - Z.min e3 e1) <= Z.pos m3 * 2 ^ (e3 - Z.min e3 e1).
Proof.
  intros B1 B3 H.
  destruct (bounded_canonical m1 e1 B1) as (R1 & D1 & N1 & U1).
  destruct (bounded_canonical m3 e3 B3) as (R3 & D3 & N3 & U3).
  destruct H as [Lt|[-> Le]].
  - rewrite Z.min_r by lia. rewrite Z.sub_diag, Z.pow_0_r, Z.mul_1_r.
    pose proof (digits_le m3) as L. rewrite N3 in L by lia.
    change (2 ^ (53 - 1)) with (2 ^ 52) in L.
    assert (2 ^ 1 <= 2 ^ (e3 - e1)) by (apply Z.pow_le_mono_r; lia).
    change (2 ^ 1) with 2 in *. change (2 ^ 53) with (2 * 2 ^ 52) in U1.
    nia.
  - rewrite Z.min_id, Z.sub_diag, Z.pow_0_r. lia.
Qed.

Lemma canonical_order_swap (m1 m3 : positive) (e1 e3 : Z) :
  bounded prec emax m1 e1 = true ->
  bounded prec emax m3 e3 = true ->
  e3 < e1 \/ (e3 = e1 /\ Z.pos m3 <= Z.pos m1) ->
  Z.pos m3 * 2 ^ (e3 - Z.min e3 e1) <= Z.pos m1 * 2 ^ (e1 - Z.min e3 e1).
Proof.
  intros B1 B3 H. rewrite Z.min_comm. now apply canonical_order.
Qed.

Lemma fsub_nonneg (q1 q3 : float) :
  finite q1 = true -> finite q3 = true ->
  valid_binary prec emax q1 = true ->
  valid_binary prec emax q3 = true ->
  SFleb q1 q3 = true ->
  SFleb (S754_zero false) (fsub q3 q1) = true.
Proof.
  intros F1 F3 V1 V3 H.
  destruct q1 as [s1| | |s1 m1 e1], q3 as [s3| | |s3 m3 e3];
    try discriminate.
  - now destruct s1, s3.
  - destruct s3; [discriminate | reflexivity].
  - destruct s1; [reflexivity | discriminate].
  - unfold fsub. cbn [SFsub]. cbv zeta.
    set (ez := Z.min e3 e1).
    pose proof (shl_align_value m1 e1 ez ltac:(lia)) as W1.
    pose proof (shl_align_value m3 e3 ez ltac:(lia)) as W3.
    set (M1 := Z.pos (fst (shl_align m1 e1 ez))) in *.
    set (M3 := Z.pos (fst (shl_align m3 e3 ez))) in *.
    assert (0 < M1) by (unfold M1; lia).
    assert (0 < M3) by (unfold M3; lia).
    cbn [valid_binary] in V1, V3.
    destruct (leb_finite_cases _ _ _ _ _ _ H)
      as [[-> ->]|[(-> & -> & L)|(-> & -> & L)]]; cbn [cond_Zopp].
    + destruct (M3 - - M1) as [|n|n] eqn:N; try lia.
      apply signed_nonneg, binary_round_signed.
    + pose proof (canonical_order m1 m3 e1 e3 V1 V3 L) as O.
      fold ez in O. rewrite <- W1, <- W3 in O.
      destruct (M3 - M1) as [|n|n] eqn:N; try lia; [reflexivity|].
      apply signed_nonneg, binary_round_signed.
    + pose proof (canonical_order_swap m1 m3 e1 e3 V1 V3 L) as O.
      fold ez in O. rewrite <- W1, <- W3 in O.
      destruct (- M3 - - M1) as [|n|n] eqn:N; try lia; [reflexivity|].
      apply signed_nonneg, binary_round_signed.
Qed.

(** The fence around two finite, ordered quartiles contains them. *)
Lemma fence_contains_quartiles (q1 q3 : float) :
  finite q1 = true -> finite q3 = true ->
  valid_binary prec emax q1 = true ->
  valid_binary prec emax q3 = true ->
  SFleb q1 q3 = true ->
  SFleb (S754_zero false) (fsub q3 q1) = true /\
  SFleb (fsub q1 (fmul f1_5 (fsub q3 q1))) q1 = true /\
  SFleb q3 (fadd q3 (fmul f1_5 (fsub q3 q1))) = true /\
  SFleb (fsub q1 (fmul f1_5 (fsub q3 q1)))
        (fadd q3 (fmul f1_5 (fsub q3 q1))) = true.
Proof.
  intros F1 F3 V1 V3 H.
  pose proof (fsub_nonneg q1 q3 F1 F3 V1 V3 H) as N.
  pose proof (fmul_nonneg _ N) as X.
  pose proof (fsub_below q1 _ F1 V1 X) as L.
  pose proof (fadd_above q3 _ F3 V3 X) as U.
  repeat split; try assumption.
  eapply SFleb_trans; [exact L|]. eapply SFleb_trans; [exact H | exact U].
Qed.


(** **** Results are float64 *)

Lemma digits_53 (m : Z) :
  2 ^ 52 <= m < 2 ^ 53 -> Z.pos (digits2_pos (Z.to_pos m)) = 53.
Proof.
  intros H.
  assert (P : Z.pos (Z.to_pos m) = m) by (apply Z2Pos.id; lia).
  pose proof (digits_below (Z.to_pos m) 53 ltac:(lia) ltac:(lia)).
  pose proof (digits_above (Z.to_pos m) 52 ltac:(lia) ltac:(lia)).
  lia.
Qed.

Lemma rounded_valid (s : bool) (m2 E : Z) :
  -1074 <= E -> 0 <= m2 <= 2 ^ 53 -> (-1074 < E -> 2 ^ 52 <= m2) ->
  valid_binary prec emax
    (if m2 =? 0 then S754_zero s
     else if m2 <? 2 ^ 53
          then if E <=? 971 then S754_finite s (Z.to_pos m2) E
               else S754_infinity s
          else if E + 1 <=? 971
               then S754_finite s (Z.to_pos (2 ^ 52)) (E + 1)
               else S754_infinity s) = true.
Proof.
  intros HE Hm Hn.
  destruct (Z.eqb_spec m2 0); [reflexivity|].
  destruct (Z.ltb_spec m2 (2 ^ 53)).
  - destruct (Z.leb_spec E 971); [|reflexivity].
    cbn [valid_binary]. unfold bounded, canonical_mantissa.
    apply andb_true_iff. split; [|apply Z.leb_le; exact H0].
    apply Z.eqb_eq. rewrite fexp_binary64.
    destruct (Z.eq_dec E (-1074)) as [->|].
    + pose proof (digits_below (Z.to_pos m2) 53 ltac:(lia)
                    ltac:(rewrite Z2Pos.id; lia)). lia.
    + rewrite digits_53 by lia. lia.
  - destruct (Z.leb_spec (E + 1) 971); [|reflexivity].
    cbn [valid_binary]. unfold bounded, canonical_mantissa.
    apply andb_true_iff. split; [|apply Z.leb_le; exact H0].
    apply Z.eqb_eq. rewrite fexp_binary64.
    change (Z.pos (digits2_pos (Z.to_pos (2 ^ 52)))) with 53. lia.
Qed.

Lemma binary_round_aux_valid (s : bool) (mz : positive) (e0 : Z) :
  e0 <= fexp prec emax (Z.pos (digits2_pos mz) + e0) ->
  valid_binary prec emax
    (binary_round_aux prec emax s (Z.pos mz) e0 loc_Exact) = true.
Proof.
  intros H.
  destruct (binary_round_aux_cases s mz e0 H)
    as (m2 & H1 & H2 & H3 & H4 & ->).
  apply rounded_valid; try assumption.
  - rewrite fexp_binary64. lia.
  - split; [|assumption].
    assert (0 <= Z.pos mz
                 / 2 ^ (fexp prec emax (Z.pos (digits2_pos mz) + e0) - e0)).
    { apply Z.div_pos; [lia|]. apply Z.pow_pos_nonneg; lia. }
    lia.
Qed.

Lemma binary_round_valid (s : bool) (n : positive) (ez : Z) :
  valid_binary prec emax (binary_round prec emax s n ez) = true.
Proof.
  destruct (binary_round_cases s n ez)
    as (mz & m2 & Hz & H1 & H2 & H3 & H4 & ->).
  apply rounded_valid; try assumption.
  - rewrite fexp_binary64. lia.
  - split; [|assumption].
    set (E := fexp prec emax (Z.pos (digits2_pos n) + ez)) in *.
    assert (0 <= Z.pos mz / 2 ^ (E - Z.min ez E)).
    { apply Z.div_pos; [lia|]. apply Z.pow_pos_nonneg; lia. }
    lia.
Qed.

Lemma binary_normalize_valid (z e : Z) (s : bool) :
  valid_binary prec emax (binary_normalize prec emax z e s) = true.
Proof.
  destruct z; cbn [binary_normalize];
    [reflexivity | apply binary_round_valid | apply binary_round_valid].
Qed.

Lemma of_int_valid (z : Z) : valid_binary prec emax (of_int z) = true.
Proof. apply binary_normalize_valid. Qed.

Lemma fadd_valid (x y : float) :
  valid_binary prec emax x = true -> valid_binary prec emax y = true ->
  valid_binary prec emax (fadd x y) = true.
Proof.
  intros Hx Hy. unfold fadd.
  destruct x as [sx|sx| |sx mx ex], y as [sy|sy| |sy my ey];
    cbn [SFadd]; try assumption; try reflexivity;
    try (destruct sx, sy; reflexivity).
  apply binary_normalize_valid.
Qed.

Lemma fsub_valid (x y : float) :
  valid_binary prec emax x = true -> valid_binary prec emax y = true ->
  valid_binary prec emax (fsub x y) = true.
Proof.
  intros Hx Hy. unfold fsub.
  destruct x as [sx|sx| |sx mx ex], y as [sy|sy| |sy my ey];
    cbn [SFsub]; try assumption; try reflexivity;
    try (destruct sx, sy; reflexivity).
  apply binary_normalize_valid.
Qed.

Lemma fmul_valid (x y : float) :
  valid_binary prec emax x = true -> valid_binary prec emax y = true ->
  valid_binary prec emax (fmul x y) = true.
Proof.
  intros Hx Hy. unfold fmul.
  destruct x as [sx|sx| |sx mx ex], y as [sy|sy| |sy my ey];
    cbn [SFmul]; try reflexivity.
  cbn [valid_binary] in Hx, Hy.
  destruct (bounded_canonical mx ex Hx) as (Rx & Dx & Nx & Ux).
  destruct (bounded_canonical my ey Hy) as (Ry & Dy & Ny & Uy).
  apply binary_round_aux_valid. rewrite fexp_binary64.
  destruct (Z.eq_dec ex (-1074)) as [Ex|Ex];
    [destruct (Z.eq_dec ey (-1074)) as [Ey|Ey]; [lia|]|].
  - pose proof (digits_le my) as L. rewrite Ny in L by lia.
    assert (52 < Z.pos (digits2_pos (mx * my))).
    { apply digits_above; [lia|]. rewrite Pos2Z.inj_mul.
      change (2 ^ (53 - 1)) with (2 ^ 52) in L. nia. }
    lia.
  - pose proof (digits_le mx) as L. rewrite Nx in L by lia.
    assert (52 < Z.pos (digits2_pos (mx * my))).
    { apply digits_above; [lia|]. rewrite Pos2Z.inj_mul.
      change (2 ^ (53 - 1)) with (2 ^ 52) in L. nia. }
    lia.
Qed.

Lemma quarter_valid (r : Z) : valid_binary prec emax (quarter r) = true.
Proof.
  destruct (quarter_cases r) as [<-|[<-|[<-|[<-|[]]]]]; reflexivity.
Qed.

Lemma lerp_valid (a b : float) (r : Z) :
  valid_binary prec emax a = true -> valid_binary prec emax b = true ->
  valid_binary prec emax (lerp a b (quarter r)) = true.
Proof.
  intros Ha Hb. unfold lerp. cbv zeta.
  pose proof (quarter_valid r) as Ht.
  destruct (fle f0_5 (quarter r)).
  - apply fsub_valid; [exact Hb|]. apply fmul_valid.
    + now apply fsub_valid.
    + now apply fsub_valid.
  - apply fadd_valid; [exact Ha|]. apply fmul_valid; [|exact Ht].
    now apply fsub_valid.
Qed.

Lemma lerp_int_valid (a b : Z) (r : Z) :
  valid_binary prec emax (lerp_int a b (quarter r)) = true.
Proof.
  unfold lerp_int. cbv zeta.
  pose proof (quarter_valid r) as Ht.
  destruct (fle f0_5 (quarter r)).
  - apply fsub_valid; [apply of_int_valid|]. apply fmul_valid.
    + apply of_int_valid.
    + now apply fsub_valid.
  - apply fadd_valid; [apply of_int_valid|].
    apply fmul_valid; [apply of_int_valid | exact Ht].
Qed.

Lemma nth_Forall {A : Type} (P : A -> Prop) (l : list A) (i : nat) (x : A) :
  Forall P l -> P x -> P (nth i l x).
Proof.
  intros Hl Hx. destruct (Nat.lt_ge_cases i (length l)) as [Lt|Ge].
  - rewrite Forall_forall in Hl. now apply Hl, nth_In.
  - now rewrite nth_overflow.
Qed.

Lemma order_statistic_valid (k : column) (q : Z) :
  (forall v, k = Float64 v ->
             Forall (fun y => valid_binary prec emax y = true) v) ->
  valid_binary prec emax (order_statistic k q) = true.
Proof.
  intros Hk. destruct k as [z|v|o]; cbn [order_statistic];
    [| |reflexivity].
  - unfold at_quarters. destruct (sort Z.leb z); [reflexivity|].
    apply lerp_int_valid.
  - specialize (Hk v eq_refl).
    assert (Hs : Forall (fun y => valid_binary prec emax y = true)
                   (sort fle (dropna v))).
    { apply (Permutation_Forall (x := dropna v)).
      - symmetry. apply sort_permutation.
      - unfold dropna. rewrite Forall_forall in *.
        intros y Hy. apply filter_In in Hy. now apply Hk. }
    unfold at_quarters. destruct (sort fle (dropna v)) as [|x s] eqn:E;
      [reflexivity|].
    inversion Hs as [|? ? Hx Hs']; subst.
    apply lerp_valid; apply nth_Forall; assumption.
Qed.

(** Every int64 converts to a finite float64. *)
Lemma of_int_finite (a : Z) :
  - 2 ^ 63 <= a < 2 ^ 63 -> finite (of_int a) = true.
Proof.
  intros H. unfold of_int.
  assert (B : bounded prec emax 4503599627370496 11 = true) by reflexivity.
  destruct a as [|n|n]; cbn [binary_normalize]; [reflexivity| |].
  - destruct (round_below false n 0 _ _ B ltac:(lia) ltac:(lia))
      as [->|(m & e & -> & _)]; reflexivity.
  - destruct (round_below true n 0 _ _ B ltac:(lia) ltac:(lia))
      as [->|(m & e & -> & _)]; reflexivity.
Qed.

End Rounding.

(** *** One finite value *)

Lemma fsub_diag (a : float) : finite a = true -> fsub a a = S754_zero false.
Proof.
  destruct a as [s| | |s m e]; try discriminate; intros _.
  - now destruct s.
  - unfold fsub. cbn [SFsub]. cbv zeta. rewrite Z.sub_diag. reflexivity.
Qed.

(** Interpolating with a difference of zero gives back the value. *)
Lemma interpolate_flat (a t : float) :
  finite a = true ->
  In t [f0_0; f0_25; f0_5; f0_75] ->
  same_value a
    (if fle f0_5 t
     then fsub a (fmul (S754_zero false) (fsub f1_0 t))
     else fadd a (fmul (S754_zero false) t)).
Proof.
  intros Ha Ht.
  destruct a as [s| | |s m e]; try discriminate.
  - destruct Ht as [<-|[<-|[<-|[<-|[]]]]]; destruct s; vm_compute; eauto.
  - destruct Ht as [<-|[<-|[<-|[<-|[]]]]]; vm_compute; reflexivity.
Qed.

Lemma lerp_diag (a : float) (r : Z) :
  finite a = true -> same_value a (lerp a a (quarter r)).
Proof.
  intros Ha. unfold lerp. cbv zeta. rewrite (fsub_diag a Ha).
  apply interpolate_flat; [exact Ha | apply quarter_cases].
Qed.

Lemma lerp_int_diag (a : Z) (r : Z) :
  finite (of_int a) = true -> same_value (of_int a) (lerp_int a a (quarter r)).
Proof.
  intros Ha. unfold lerp_int. cbv zeta. rewrite Z.sub_diag.
  change (of_int (wrap64 0)) with (S754_zero false).
  apply interpolate_flat; [exact Ha | apply quarter_cases].
Qed.

Lemma at_quarters_repeat {A : Type} (interp : A -> A -> float -> float)
    (a : A) (n : nat) (q : Z) :
  at_quarters interp (repeat a (S n)) q
  = interp a a (quarter ((q * (Z.of_nat (S n) - 1)) mod 4)).
Proof.
  unfold at_quarters. cbn [repeat].
  change (a :: repeat a n) with (repeat a (S n)).
  cbv zeta. rewrite !nth_repeat, repeat_length. reflexivity.
Qed.

Lemma sort_repeat {A : Type} (leb : A -> A -> bool) (a : A) (n : nat) :
  sort leb (repeat a n) = repeat a n.
Proof.
  induction n as [|n IH]; [reflexivity|].
  cbn [repeat sort]. rewrite IH. clear IH.
  induction n as [|n IH]; [reflexivity|].
  cbn [repeat insert]. destruct (leb a a); [reflexivity|].
  now rewrite IH.
Qed.

Lemma dropna_repeat (a : float) (n : nat) :
  finite a = true -> dropna (repeat a n) = repeat a n.
Proof.
  intros Ha. induction n as [|n IH]; [reflexivity|].
  cbn [repeat dropna filter]. fold (dropna (repeat a n)). rewrite IH.
  now destruct a.
Qed.

Lemma same_value_sub (a q1 q3 : float) :
  same_value a q1 -> same_value a q3 ->
  exists s, fsub q3 q1 = S754_zero s.
Proof.
  destruct a as [sa| | |sa m e]; cbn [same_value]; try tauto.
  - intros [s1 ->] [s3 ->]. destruct s1, s3; cbn; eauto.
  - intros -> ->. exists false. now apply fsub_diag.
Qed.

Lemma fmul_zero (s : bool) : fmul f1_5 (S754_zero s) = S754_zero s.
Proof. now destruct s. Qed.

Lemma same_value_sub_zero (a q : float) (s : bool) :
  same_value a q -> same_value a (fsub q (S754_zero s)).
Proof.
  destruct a as [sa| | |sa m e]; cbn [same_value]; try tauto.
  - intros [s1 ->]. destruct s1, s; cbn; eauto.
  - intros ->. reflexivity.
Qed.

Lemma same_value_add_zero (a q : float) (s : bool) :
  same_value a q -> same_value a (fadd q (S754_zero s)).
Proof.
  destruct a as [sa| | |sa m e]; cbn [same_value]; try tauto.
  - intros [s1 ->]. destruct s1, s; cbn; eauto.
  - intros ->. reflexivity.
Qed.

Lemma same_value_compare (a x : float) :
  same_value a x -> SFcompare x a = Some Eq /\ SFcompare a x = Some Eq.
Proof.
  destruct a as [sa| | |sa m e]; cbn [same_value]; try tauto.
  - intros [s ->]. split; reflexivity.
  - intros ->. split; now apply SFcompare_refl.
Qed.

Lemma same_value_trans (a x y : float) :
  same_value a x -> same_value a y -> SFcompare x y = Some Eq.
Proof.
  destruct a as [sa| | |sa m e]; cbn [same_value]; try tauto.
  - intros [s ->] [s' ->]. reflexivity.
  - intros -> ->. now apply SFcompare_refl.
Qed.



(** The fence around coinciding quartiles. *)
Lemma fence_of_coinciding_quartiles (a q1 q3 : float) :
  same_value a q1 -> same_value a q3 ->
  (exists s, fsub q3 q1 = S754_zero s) /\
  same_value a (fsub q1 (fmul f1_5 (fsub q3 q1))) /\
  same_value a (fadd q3 (fmul f1_5 (fsub q3 q1))).
Proof.
  intros H1 H3. destruct (same_value_sub a q1 q3 H1 H3) as [s Hs].
  split; [eauto|]. rewrite Hs, fmul_zero.
  split; [now apply same_value_sub_zero | now apply same_value_add_zero].
Qed.

Lemma not_outside_same_value (a lo hi : float) :
  same_value a lo -> same_value a hi -> outside lo hi a = false.
Proof.
  intros Hlo Hhi. unfold outside, flt, fgt, SFltb.
  destruct (same_value_compare a lo Hlo) as [_ ->].
  destruct (same_value_compare a hi Hhi) as [-> _]. reflexivity.
Qed.


Lemma SFeqb_of_same_value (a x : float) :
  same_value a x -> SFeqb x a = true.
Proof.
  intros H. unfold SFeqb. now destruct (same_value_compare a x H) as [-> _].
Qed.

Lemma quartiles_of_repeated_float (a : float) (n : nat) (q : Z) :
  finite a = true ->
  same_value a (order_statistic (Float64 (repeat a (S n))) q).
Proof.
  intros Ha. cbn [order_statistic].
  rewrite (dropna_repeat a (S n) Ha), sort_repeat, at_quarters_repeat.
  now apply lerp_diag.
Qed.

Lemma quartiles_of_repeated_int (a : Z) (n : nat) (q : Z) :
  finite (of_int a) = true ->
  same_value (of_int a) (order_statistic (Int64 (repeat a (S n))) q).
Proof.
  intros Ha. cbn [order_statistic].
  rewrite sort_repeat, at_quarters_repeat.
  now apply lerp_int_diag.
Qed.

Lemma select_repeat_false {A : Type} (m : nat) (l : list A) :
  select (repeat false m) l = [].
Proof.
  apply select_none. apply Forall_forall. intros b Hb.
  now apply repeat_spec in Hb.
Qed.

(** With every value equal to [a] and both quartiles equal to [a], the
    fence collapses to [a] and the mask selects nothing. *)
Lemma collapsed (e : Env) (c : string) (k : column) (a : float) (m : nat) :
  as_float k = Some (repeat a m) ->
  same_value a (order_statistic k 1) ->
  same_value a (order_statistic k 3) ->
  SFeqb (Q1 (after e c k (repeat a m))) a = true /\
  SFeqb (Q3 (after e c k (repeat a m))) a = true /\
  SFeqb (IQR (after e c k (repeat a m))) (S754_zero false) = true /\
  SFeqb (lower_bound (after e c k (repeat a m))) a = true /\
  SFeqb (upper_bound (after e c k (repeat a m))) a = true /\
  SFleb (lower_bound (after e c k (repeat a m)))
        (upper_bound (after e c k (repeat a m))) = true /\
  s_index (outliers (after e c k (repeat a m))) = [] /\
  s_values (outliers (after e c k (repeat a m)))
  = select_col (repeat false m) k.
Proof.
  intros Hk H1 H3.
  destruct (fence_of_coinciding_quartiles a _ _ H1 H3) as ([s Hs] & Hlo & Hhi).
  unfold after. cbv zeta.
  cbn [Q1 Q3 IQR lower_bound upper_bound outliers s_index s_values].
  split; [now apply SFeqb_of_same_value|].
  split; [now apply SFeqb_of_same_value|].
  split; [rewrite Hs; now destruct s|].
  split; [now apply SFeqb_of_same_value|].
  split; [now apply SFeqb_of_same_value|].
  split; [unfold SFleb; now rewrite (same_value_trans a _ _ Hlo Hhi)|].
  assert (Hm : map (outside
                      (fsub (order_statistic k 1)
                         (fmul f1_5
                            (fsub (order_statistic k 3) (order_statistic k 1))))
                      (fadd (order_statistic k 3)
                         (fmul f1_5
                            (fsub (order_statistic k 3) (order_statistic k 1)))))
                   (repeat a m)
               = repeat false m).
  { rewrite map_repeat. f_equal. now apply not_outside_same_value. }
  rewrite Hm. split; [apply select_repeat_false | reflexivity].
Qed.

(** C6, as stated, fails on a column of identical infinite values: the
    quartiles, the IQR and both bounds are NaN, so the IQR is not 0 and
    the fence is not that value. *)
Lemma identical_infinite_values :
  lookup "x" (columns two_infinities) = Some (Float64 (repeat pinf 2)) /\
  exists e',
    iteration "x" (loaded two_infinities) = (Ok tt, e') /\
    Q1 e' = NaN /\ Q3 e' = NaN /\ IQR e' = NaN /\
    SFeqb (IQR e') (S754_zero false) = false /\
    lower_bound e' = NaN /\ upper_bound e' = NaN /\
    SFeqb (lower_bound e') (upper_bound e') = false.
Proof.
  split; [reflexivity|].
  exists (snd (iteration "x" (loaded two_infinities))). by_running.
Qed.

(** C6, amended.  When every value of a non-empty column is the same
    finite float64, or the same int64, both quartiles are that number as
    a float64, the IQR is 0, both bounds are that number, and no row is
    flagged: [outliers] is empty and the count is 0.  The equalities are
    those of float64, which do not tell the two zeros apart. *)
Theorem identical_finite_values_no_outlier
    (e : Env) (c : string) (n : nat) :
  (forall a : float,
      finite a = true ->
      lookup c (columns (df e)) = Some (Float64 (repeat a (S n))) ->
      exists e',
        iteration c e = (Ok tt, e') /\
        SFeqb (Q1 e') a = true /\ SFeqb (Q3 e') a = true /\
        SFeqb (IQR e') (S754_zero false) = true /\
        SFeqb (lower_bound e') a = true /\
        SFeqb (upper_bound e') a = true /\
        outliers e' = mkSeries [] (Float64 []) /\
        scan (df e) c = Ok (0%nat, mkSeries [] (Float64 []))) /\
  (forall a : Z,
      (- 2 ^ 63 <= a < 2 ^ 63)%Z ->
      lookup c (columns (df e)) = Some (Int64 (repeat a (S n))) ->
      exists e',
        iteration c e = (Ok tt, e') /\
        SFeqb (Q1 e') (of_int a) = true /\
        SFeqb (Q3 e') (of_int a) = true /\
        SFeqb (IQR e') (S754_zero false) = true /\
        SFeqb (lower_bound e') (of_int a) = true /\
        SFeqb (upper_bound e') (of_int a) = true /\
        outliers e' = mkSeries [] (Int64 []) /\
        scan (df e) c = Ok (0%nat, mkSeries [] (Int64 []))).
Proof.
  split.
  - intros a Ha Hl.
    destruct (collapsed e c (Float64 (repeat a (S n))) a (S n) eq_refl
                (quartiles_of_repeated_float a n 1 Ha)
                (quartiles_of_repeated_float a n 3 Ha))
      as (H1 & H3 & Hi & Hlo & Hhi & _ & Hidx & Hval).
    exists (after e c (Float64 (repeat a (S n))) (repeat a (S n))).
    split; [now apply body_numeric|].
    do 5 (split; [assumption|]).
    assert (Ho : outliers (after e c (Float64 (repeat a (S n)))
                             (repeat a (S n)))
                 = mkSeries [] (Float64 [])).
    { destruct (outliers _) as [i k]. cbn [s_index s_values] in *.
      rewrite Hidx, Hval. cbn [select_col].
      now rewrite select_repeat_false. }
    split; [exact Ho|].
    rewrite (scan_of_body e c _ _ Hl eq_refl), Ho. reflexivity.
  - intros a Hr Hl. pose proof (of_int_finite a Hr) as Ha.
    assert (Hv : as_float (Int64 (repeat a (S n)))
                 = Some (repeat (of_int a) (S n)))
      by (cbn [as_float]; now rewrite map_repeat).
    destruct (collapsed e c (Int64 (repeat a (S n))) (of_int a) (S n) Hv
                (quartiles_of_repeated_int a n 1 Ha)
                (quartiles_of_repeated_int a n 3 Ha))
      as (H1 & H3 & Hi & Hlo & Hhi & _ & Hidx & Hval).
    exists (after e c (Int64 (repeat a (S n))) (repeat (of_int a) (S n))).
    split; [now apply body_numeric|].
    do 5 (split; [assumption|]).
    assert (Ho : outliers (after e c (Int64 (repeat a (S n)))
                             (repeat (of_int a) (S n)))
                 = mkSeries [] (Int64 [])).
    { destruct (outliers _) as [i k]. cbn [s_index s_values] in *.
      rewrite Hidx, Hval. cbn [select_col].
      now rewrite select_repeat_false. }
    split; [exact Ho|].
    rewrite (scan_of_body e c _ _ Hl Hv), Ho. reflexivity.
Qed.

Lemma identical_finite_values_no_outlier_witness :
  (exists e',
      iteration "x" (loaded four_fives) = (Ok tt, e') /\
      Q1 e' = of_int 5 /\ Q3 e' = of_int 5 /\ IQR e' = S754_zero false /\
      lower_bound e' = of_int 5 /\ upper_bound e' = of_int 5 /\
      outliers e' = mkSeries [] (Int64 []) /\
      scan four_fives "x" = Ok (0%nat, mkSeries [] (Int64 []))) /\
  (exists e',
      iteration "x" (loaded large_integers) = (Ok tt, e') /\
      Q1 e' = of_int (2 ^ 53) /\ Q3 e' = of_int (2 ^ 53) /\
      lower_bound e' = of_int (2 ^ 53) /\ upper_bound e' = of_int (2 ^ 53) /\
      scan large_integers "x" = Ok (0%nat, mkSeries [] (Int64 []))).
Proof.
  split.
  - destruct (proj2 (identical_finite_values_no_outlier (loaded four_fives)
                       "x" 3) 5%Z ltac:(lia) eq_refl)
      as (e' & Hrun & _).
    exists e'. split; [exact Hrun|].
    vm_compute in Hrun. injection Hrun as <-.
    repeat split; vm_compute; reflexivity.
  - destruct (proj2 (identical_finite_values_no_outlier
                       (loaded large_integers) "x" 3)
                (2 ^ 53 + 1)%Z ltac:(lia) eq_refl)
      as (e' & Hrun & _).
    exists e'. split; [exact Hrun|].
    vm_compute in Hrun. injection Hrun as <-.
    repeat split; vm_compute; reflexivity.
Defined.


(** *** The order of the two bounds *)






(** *** Flagged values and the quartiles *)

Lemma SFltb_leb_trans (a b c : float) :
  SFltb a b = true -> SFleb b c = true -> SFltb a c = true.
Proof.
  unfold SFleb, SFltb.
  destruct a as [sa|sa| |sa ma ea], b as [sb|sb| |sb mb eb],
           c as [sc|sc| |sc mc ec];
    try destruct sa; try destruct sb; try destruct sc;
    cbn [SFcompare]; try reflexivity; try discriminate;
    change (Pos.compare_cont Eq ma mb) with (Pos.compare ma mb);
    change (Pos.compare_cont Eq mb mc) with (Pos.compare mb mc);
    change (Pos.compare_cont Eq ma mc) with (Pos.compare ma mc);
    destruct (Z.compare_spec ea eb), (Z.compare_spec eb ec),
             (Z.compare_spec ea ec);
    cbn [CompOpp]; try reflexivity; try discriminate; try lia;
    destruct (Pos.compare_spec ma mb), (Pos.compare_spec mb mc),
             (Pos.compare_spec ma mc);
    cbn [CompOpp]; try reflexivity; try discriminate; try lia.
Qed.

Lemma SFleb_ltb_trans (a b c : float) :
  SFleb a b = true -> SFltb b c = true -> SFltb a c = true.
Proof.
  unfold SFleb, SFltb.
  destruct a as [sa|sa| |sa ma ea], b as [sb|sb| |sb mb eb],
           c as [sc|sc| |sc mc ec];
    try destruct sa; try destruct sb; try destruct sc;
    cbn [SFcompare]; try reflexivity; try discriminate;
    change (Pos.compare_cont Eq ma mb) with (Pos.compare ma mb);
    change (Pos.compare_cont Eq mb mc) with (Pos.compare mb mc);
    change (Pos.compare_cont Eq ma mc) with (Pos.compare ma mc);
    destruct (Z.compare_spec ea eb), (Z.compare_spec eb ec),
             (Z.compare_spec ea ec);
    cbn [CompOpp]; try reflexivity; try discriminate; try lia;
    destruct (Pos.compare_spec ma mb), (Pos.compare_spec mb mc),
             (Pos.compare_spec ma mc);
    cbn [CompOpp]; try reflexivity; try discriminate; try lia.
Qed.

Lemma as_float_select_col (m : list bool) (k : column) (v : list float) :
  as_float k = Some v -> as_float (select_col m k) = Some (select m v).
Proof.
  destruct k as [z|f|[|o os]]; simpl; intros H; inversion H; subst.
  - now rewrite select_map.
  - reflexivity.
  - now rewrite !select_nil_r.
Qed.

Lemma select_In {A : Type} (f : A -> bool) (v : list A) (y : A) :
  In y (select (map f v) v) -> In y v /\ f y = true.
Proof.
  induction v as [|x v IH]; simpl; [tauto|].
  destruct (f x) eqn:E; simpl.
  - intros [<-|H]; [auto | destruct (IH H); auto].
  - intros H. destruct (IH H); auto.
Qed.

(** X13.  In binary64, when both quartiles are finite and Q1 <= Q3, every
    flagged value lies strictly outside the interquartile range: it is
    strictly below Q1 or strictly above Q3, so a row whose value is
    between Q1 and Q3, bounds included, is never flagged. *)
Theorem outliers_outside_finite_quartiles
    (e : Env) (c : string) (k : column) (v : list float) :
  lookup c (columns (df e)) = Some k ->
  as_float k = Some v ->
  (forall f, k = Float64 f ->
             Forall (fun y => valid_binary 53 1024 y = true) f) ->
  exists e',
    iteration c e = (Ok tt, e') /\
    (finite (Q1 e') = true -> finite (Q3 e') = true ->
     SFleb (Q1 e') (Q3 e') = true ->
     forall ys,
       as_float (s_values (outliers e')) = Some ys ->
       Forall (fun y => In y v /\
                        (SFltb y (Q1 e') = true \/ SFltb (Q3 e') y = true) /\
                        ~ (SFleb (Q1 e') y = true /\ SFleb y (Q3 e') = true))
              ys).
Proof.
  intros Hl Hk Hv. exists (after e c k v).
  split; [now apply body_numeric|].
  intros F1 F3 Hle ys Hys.
  unfold after in *. cbv zeta in *.
  cbn [Q1 Q3 outliers s_values] in *.
  destruct (fence_contains_quartiles _ _ F1 F3
              (order_statistic_valid k 1 Hv) (order_statistic_valid k 3 Hv)
              Hle) as (_ & Hlo & Hhi & _).
  rewrite (as_float_select_col _ _ _ Hk) in Hys. injection Hys as <-.
  apply Forall_forall. intros y Hy. apply select_In in Hy.
  destruct Hy as [Hin Hout]. split; [exact Hin|].
  unfold outside, flt, fgt in Hout. apply orb_true_iff in Hout.
  assert (Hside : SFltb y (order_statistic k 1) = true \/
                  SFltb (order_statistic k 3) y = true).
  { destruct Hout as [H|H].
    - left. eapply SFltb_leb_trans; [exact H | exact Hlo].
    - right. eapply SFleb_ltb_trans; [exact Hhi | exact H]. }
  split; [exact Hside|].
  intros [A B]. destruct Hside as [H|H].
  - now rewrite (SFleb_not_ltb _ _ A) in H.
  - now rewrite (SFleb_not_ltb _ _ B) in H.
Qed.

Lemma outliers_outside_finite_quartiles_witness :
  exists e',
    iteration "x" (loaded nine_values) = (Ok tt, e') /\
    Q1 e' = of_int 2 /\ Q3 e' = of_int 4 /\
    outliers e' = mkSeries [8%nat] (Int64 [100%Z]) /\
    SFltb (Q3 e') (of_int 100) = true.
Proof.
  destruct (outliers_outside_finite_quartiles (loaded nine_values) "x"
              (Int64 [1; 2; 2; 3; 3; 3; 4; 4; 100]%Z)
              (map of_int [1; 2; 2; 3; 3; 3; 4; 4; 100]%Z)
              eq_refl eq_refl ltac:(discriminate)) as (e' & Hrun & Hout).
  exists e'. split; [exact Hrun|].
  vm_compute in Hrun. injection Hrun as <-.
  specialize (Hout eq_refl eq_refl eq_refl [of_int 100] eq_refl).
  inversion Hout as [|? ? (_ & [H|H] & _) _]; subst.
  - vm_compute in H. discriminate.
  - repeat split; try exact H; vm_compute; reflexivity.
Defined.

End Binary64.
